(** * ePMP configuration and check routines of OpenTitan, embedded in Rocq

    The development follows two libraries of the repository:

    - [sw/device/lib/runtime/epmp.h], the region-configuration interface
      (entry encodings OFF, TOR, NA4 and NAPOT and their decoder);
    - [sw/device/silicon_creator/lib/epmp/epmp.c] and [.../epmp/test.c],
      the mask ROM check of the live PMP registers against a shadow state
      and the unlocking of the test-status window;
    - the retention SRAM driver of [sw/device/silicon_creator/lib/drivers]
      ([retention_sram_scramble]) and its functional test
      ([retention_sram_functest.c]): the request to scramble the retention
      SRAM and the check that the scrambling took place.

    Machine words are integers in [Z] with the wrap-around written out,
    C arrays are lists read and updated by index, and the control and
    status registers are a register file threaded through a state monad
    that also records every access. *)

From Stdlib Require Import ZArith Lia Bool List.
From stdpp Require Import base list strings.
Import ListNotations.

Local Open Scope Z_scope.

(** ** Machine integers and arrays *)

(** [uint32_t] and [uintptr_t] are 32 bits wide on the target (RV32). *)
Definition UINT32_MOD : Z := 2 ^ 32.

Definition to_uint32 (z : Z) : Z := z mod UINT32_MOD.

(** Reading element [i] of a C array held as a list. *)
Definition array_get (a : list Z) (i : nat) : Z := default 0 (a !! i).

(** Writing element [i] of a C array held as a list. *)
Definition array_set (a : list Z) (i : nat) (v : Z) : list Z := <[i := v]> a.

(** ** Part I: the runtime library, [sw/device/lib/runtime/epmp.h] *)

Module Runtime.

(** EPMP constants. *)
Definition kEpmpGranularity : Z := 0.

Definition kEpmpNumRegions : nat := 16.

(** EPMP state: a copy of the configuration bytes and address words. *)
Record epmp_state_t : Type := {
  pmpcfg : list Z;
  pmpaddr : list Z
}.

(** EPMP entry permissions. *)
Inductive epmp_permissions_t : Set :=
| kEpmpPermissionsUnlockedMachineAllUserNone
| kEpmpPermissionsUnlockedMachineAllUserExecute
| kEpmpPermissionsUnlockedMachineAllUserRead
| kEpmpPermissionsUnlockedMachineAllUserReadExecute
| kEpmpPermissionsUnlockedMachineAllUserReadWrite
| kEpmpPermissionsUnlockedMachineAllUserAll
| kEpmpPermissionsLockedMachineNoneUserNone
| kEpmpPermissionsLockedMachineExecuteUserExecute
| kEpmpPermissionsLockedMachineReadUserRead
| kEpmpPermissionsLockedMachineReadExecuteUserReadExecute
| kEpmpPermissionsLockedMachineReadWriteUserReadWrite
| kEpmpPermissionsLockedMachineAllUserAll.

(** EPMP region specification: byte addresses, [start] and [end]. *)
Record epmp_region_t : Type := {
  start : Z;
  end_ : Z
}.

(** EPMP entry index ([uint32_t]); entries must be below
    [kEpmpNumRegions]. *)
Definition epmp_entry_t : Set := nat.

(** EPMP generic status codes. *)
Inductive epmp_result_t : Set :=
| kEpmpOk
| kEpmpError
| kEpmpBadArg.

(** EPMP configuration status codes. *)
Inductive epmp_entry_configure_result_t : Set :=
| kEpmpRegionConfigureOk
| kEpmpRegionConfigureError
| kEpmpRegionConfigureBadArg
| kEpmpRegionConfigureBadRegion
| kEpmpRegionConfigureConflict.

(** EPMP set result. *)
Inductive epmp_set_result_t : Set :=
| kEpmpSetOk
| kEpmpSetError
| kEpmpSetBadArg
| kEpmpSetMismatch.

(** The integer value of each enumerator, as the C declarations fix it:
    the first three of every enumeration are set equal to [kEpmpOk],
    [kEpmpError] and [kEpmpBadArg]; the ones after count on from there. *)
Definition epmp_result_value (r : epmp_result_t) : Z :=
  match r with
  | kEpmpOk => 0
  | kEpmpError => 1
  | kEpmpBadArg => 2
  end.

Definition epmp_entry_configure_result_value
  (r : epmp_entry_configure_result_t) : Z :=
  match r with
  | kEpmpRegionConfigureOk => epmp_result_value kEpmpOk
  | kEpmpRegionConfigureError => epmp_result_value kEpmpError
  | kEpmpRegionConfigureBadArg => epmp_result_value kEpmpBadArg
  | kEpmpRegionConfigureBadRegion => epmp_result_value kEpmpBadArg + 1
  | kEpmpRegionConfigureConflict => epmp_result_value kEpmpBadArg + 2
  end.

Definition epmp_set_result_value (r : epmp_set_result_t) : Z :=
  match r with
  | kEpmpSetOk => epmp_result_value kEpmpOk
  | kEpmpSetError => epmp_result_value kEpmpError
  | kEpmpSetBadArg => epmp_result_value kEpmpBadArg
  | kEpmpSetMismatch => epmp_result_value kEpmpBadArg + 1
  end.

(** The addressing mode of an entry (field A of a configuration byte). *)
Inductive epmp_address_mode_t : Set :=
| kEpmpModeOff
| kEpmpModeTor
| kEpmpModeNa4
| kEpmpModeNapot.

(** Modelled from the spec: the layout of a configuration byte, which the
    sources (header only) do not define.  The addressing mode sits in bits
    3 to 4 and the read, write and execute flags in bits 0 to 2, as in the
    tables of the header ([0b0001111] for TOR with all permissions).  The
    lock flag is bit 7, the position the spec gives it; the tables of the
    header print seven binary digits only and show it as their leading
    digit. *)
Definition EPMP_CFG_R : Z := 1.
Definition EPMP_CFG_W : Z := 2.
Definition EPMP_CFG_X : Z := 4.
Definition EPMP_CFG_L : Z := 128.
Definition EPMP_CFG_A_SHIFT : Z := 3.
Definition EPMP_CFG_A_MASK : Z := 3.

Definition mode_value (a : epmp_address_mode_t) : Z :=
  match a with
  | kEpmpModeOff => 0
  | kEpmpModeTor => 1
  | kEpmpModeNa4 => 2
  | kEpmpModeNapot => 3
  end.

(** Modelled from the spec: the flags L, R, W and X that the header lists
    for each permission ([LRWX = 0b....]), placed in a configuration
    byte. *)
Definition permissions_bits (p : epmp_permissions_t) : Z :=
  match p with
  | kEpmpPermissionsUnlockedMachineAllUserNone => 0
  | kEpmpPermissionsUnlockedMachineAllUserExecute => EPMP_CFG_X
  | kEpmpPermissionsUnlockedMachineAllUserRead => EPMP_CFG_R
  | kEpmpPermissionsUnlockedMachineAllUserReadExecute =>
      Z.lor EPMP_CFG_R EPMP_CFG_X
  | kEpmpPermissionsUnlockedMachineAllUserReadWrite =>
      Z.lor EPMP_CFG_R EPMP_CFG_W
  | kEpmpPermissionsUnlockedMachineAllUserAll =>
      Z.lor EPMP_CFG_R (Z.lor EPMP_CFG_W EPMP_CFG_X)
  | kEpmpPermissionsLockedMachineNoneUserNone => EPMP_CFG_L
  | kEpmpPermissionsLockedMachineExecuteUserExecute =>
      Z.lor EPMP_CFG_L EPMP_CFG_X
  | kEpmpPermissionsLockedMachineReadUserRead =>
      Z.lor EPMP_CFG_L EPMP_CFG_R
  | kEpmpPermissionsLockedMachineReadExecuteUserReadExecute =>
      Z.lor EPMP_CFG_L (Z.lor EPMP_CFG_R EPMP_CFG_X)
  | kEpmpPermissionsLockedMachineReadWriteUserReadWrite =>
      Z.lor EPMP_CFG_L (Z.lor EPMP_CFG_R EPMP_CFG_W)
  | kEpmpPermissionsLockedMachineAllUserAll =>
      Z.lor EPMP_CFG_L (Z.lor EPMP_CFG_R (Z.lor EPMP_CFG_W EPMP_CFG_X))
  end.

(** Modelled from the spec: packing and unpacking of a configuration byte
    (the pair of functions the codec is built on). *)
Definition pmpcfg_encode (a : epmp_address_mode_t) (p : epmp_permissions_t) : Z :=
  Z.lor (Z.shiftl (mode_value a) EPMP_CFG_A_SHIFT) (permissions_bits p).

Definition pmpcfg_mode (cfg : Z) : epmp_address_mode_t :=
  match Z.land (Z.shiftr cfg EPMP_CFG_A_SHIFT) EPMP_CFG_A_MASK with
  | 0 => kEpmpModeOff
  | 1 => kEpmpModeTor
  | 2 => kEpmpModeNa4
  | _ => kEpmpModeNapot
  end.

Definition pmpcfg_permissions (cfg : Z) : option epmp_permissions_t :=
  match Z.land cfg 135 with
  | 0 => Some kEpmpPermissionsUnlockedMachineAllUserNone
  | 4 => Some kEpmpPermissionsUnlockedMachineAllUserExecute
  | 1 => Some kEpmpPermissionsUnlockedMachineAllUserRead
  | 5 => Some kEpmpPermissionsUnlockedMachineAllUserReadExecute
  | 3 => Some kEpmpPermissionsUnlockedMachineAllUserReadWrite
  | 7 => Some kEpmpPermissionsUnlockedMachineAllUserAll
  | 128 => Some kEpmpPermissionsLockedMachineNoneUserNone
  | 132 => Some kEpmpPermissionsLockedMachineExecuteUserExecute
  | 129 => Some kEpmpPermissionsLockedMachineReadUserRead
  | 133 => Some kEpmpPermissionsLockedMachineReadExecuteUserReadExecute
  | 131 => Some kEpmpPermissionsLockedMachineReadWriteUserReadWrite
  | 135 => Some kEpmpPermissionsLockedMachineAllUserAll
  | _ => None
  end.

(** Modelled from the spec: an address is held shifted right by two
    ([0x04 (0x10 >> 2)] in the tables of the header); decoding shifts back
    within the 32 bits of [uintptr_t]. *)
Definition pmpaddr_encode (addr : Z) : Z := Z.shiftr addr 2.

Definition pmpaddr_decode (v : Z) : Z := to_uint32 (Z.shiftl v 2).

(** Modelled from the spec: the store of an encoded entry, both slots of
    entry [entry]. *)
Definition write_entry (s : epmp_state_t) (entry : epmp_entry_t)
  (addr cfg : Z) : epmp_state_t :=
  {| pmpcfg := array_set (pmpcfg s) entry cfg;
     pmpaddr := array_set (pmpaddr s) entry addr |}.

(** Modelled from the spec: the store of a TOR base, the address slot of
    entry [entry] alone; its configuration byte is left as it is. *)
Definition write_addr (s : epmp_state_t) (entry : epmp_entry_t)
  (addr : Z) : epmp_state_t :=
  {| pmpcfg := pmpcfg s;
     pmpaddr := array_set (pmpaddr s) entry addr |}.

(** Modelled from the spec: the tests "a power of two" and "aligned to",
    written the way C code does them on unsigned words. *)
Definition is_power_of_two (v : Z) : bool :=
  (0 <? v) && (Z.land v (v - 1) =? 0).

Definition is_aligned (addr size : Z) : bool :=
  Z.land addr (size - 1) =? 0.

(** Modelled from the spec: the run of one-bits that selects the size of
    a NAPOT region, [log2(size) - 3] ones. *)
Definition napot_ones_mask (size : Z) : Z := Z.shiftr (size - 1) 3.

(** Modelled from the spec: the number of trailing one-bits of a word,
    looking at its low [width] bits (the "stored one-bits run" that the
    decoder reads). *)
Fixpoint trailing_ones (width : nat) (v : Z) : Z :=
  match width with
  | O => 0
  | S w => if Z.odd v then 1 + trailing_ones w (Z.shiftr v 1) else 0
  end.

Section Codec.

(** The granularity of the PMP unit ([kEpmpGranularity] on this target). *)
Variable granularity : Z.

(** Modelled from the spec: [epmp_entry_configure_off], declared in the
    header and implemented in [sw/device/lib/runtime/epmp.c], which is not
    among the sources.  Requires [region.start == region.end]; writes that
    address, shifted, and the permission with mode OFF; does not look at
    the neighbouring entries. *)
Definition epmp_entry_configure_off (s : epmp_state_t) (entry : epmp_entry_t)
  (region : epmp_region_t) (permissions : epmp_permissions_t)
  : epmp_entry_configure_result_t * epmp_state_t :=
  if (kEpmpNumRegions <=? entry)%nat then (kEpmpRegionConfigureBadArg, s)
  else if negb (start region =? end_ region)
  then (kEpmpRegionConfigureBadRegion, s)
  else (kEpmpRegionConfigureOk,
        write_entry s entry (pmpaddr_encode (start region))
                    (pmpcfg_encode kEpmpModeOff permissions)).

(** Modelled from the spec: [epmp_entry_configure_tor] (implementation not
    among the sources).  The end address goes to the entry's own slot with
    mode TOR.  The start address goes to the slot of the preceding entry
    when that entry is OFF, whose configuration byte is kept; a preceding
    TOR entry must already hold the start address; entry 0 needs a start
    address of 0; everything else is a conflict. *)
Definition epmp_entry_configure_tor (s : epmp_state_t) (entry : epmp_entry_t)
  (region : epmp_region_t) (permissions : epmp_permissions_t)
  : epmp_entry_configure_result_t * epmp_state_t :=
  if (kEpmpNumRegions <=? entry)%nat then (kEpmpRegionConfigureBadArg, s)
  else
    let cfg := pmpcfg_encode kEpmpModeTor permissions in
    let addr_start := pmpaddr_encode (start region) in
    let addr_end := pmpaddr_encode (end_ region) in
    match entry with
    | O =>
        if start region =? 0
        then (kEpmpRegionConfigureOk, write_entry s entry addr_end cfg)
        else (kEpmpRegionConfigureConflict, s)
    | S prev =>
        match pmpcfg_mode (array_get (pmpcfg s) prev) with
        | kEpmpModeOff =>
            (kEpmpRegionConfigureOk,
             write_entry (write_addr s prev addr_start) entry addr_end cfg)
        | kEpmpModeTor =>
            if array_get (pmpaddr s) prev =? addr_start
            then (kEpmpRegionConfigureOk, write_entry s entry addr_end cfg)
            else (kEpmpRegionConfigureConflict, s)
        | _ => (kEpmpRegionConfigureConflict, s)
        end
    end.

(** Modelled from the spec: [epmp_entry_configure_na4] (implementation not
    among the sources).  Requires a granularity of 0 and a region of
    exactly four bytes; writes the shifted start address and mode NA4. *)
Definition epmp_entry_configure_na4 (s : epmp_state_t) (entry : epmp_entry_t)
  (region : epmp_region_t) (permissions : epmp_permissions_t)
  : epmp_entry_configure_result_t * epmp_state_t :=
  if (kEpmpNumRegions <=? entry)%nat then (kEpmpRegionConfigureBadArg, s)
  else if negb (granularity =? 0)
          || negb (to_uint32 (end_ region - start region) =? 4)
  then (kEpmpRegionConfigureBadRegion, s)
  else (kEpmpRegionConfigureOk,
        write_entry s entry (pmpaddr_encode (start region))
                    (pmpcfg_encode kEpmpModeNa4 permissions)).

(** Modelled from the spec: [epmp_entry_configure_napot] (implementation
    not among the sources).  The length must be a power of two of at least
    8, start and end aligned to it and, for a granularity above 0, to
    [2 ** (2 + granularity)] as well; the address slot gets the shifted
    start address with the size mask in its low bits. *)
Definition epmp_entry_configure_napot (s : epmp_state_t) (entry : epmp_entry_t)
  (region : epmp_region_t) (permissions : epmp_permissions_t)
  : epmp_entry_configure_result_t * epmp_state_t :=
  if (kEpmpNumRegions <=? entry)%nat then (kEpmpRegionConfigureBadArg, s)
  else
    let size := to_uint32 (end_ region - start region) in
    let unit := 2 ^ (2 + granularity) in
    if negb (is_power_of_two size)
       || (size <? 8)
       || negb (is_aligned (start region) size)
       || negb (is_aligned (end_ region) size)
       || ((0 <? granularity)
           && (negb (is_aligned (start region) unit)
               || negb (is_aligned (end_ region) unit)))
    then (kEpmpRegionConfigureBadRegion, s)
    else (kEpmpRegionConfigureOk,
          write_entry s entry
                      (Z.lor (pmpaddr_encode (start region))
                             (napot_ones_mask size))
                      (pmpcfg_encode kEpmpModeNapot permissions)).

(** The four configuration operations, selected by addressing mode. *)
Definition epmp_entry_configure (a : epmp_address_mode_t)
  : epmp_state_t -> epmp_entry_t -> epmp_region_t -> epmp_permissions_t ->
    epmp_entry_configure_result_t * epmp_state_t :=
  match a with
  | kEpmpModeOff => epmp_entry_configure_off
  | kEpmpModeTor => epmp_entry_configure_tor
  | kEpmpModeNa4 => epmp_entry_configure_na4
  | kEpmpModeNapot => epmp_entry_configure_napot
  end.

End Codec.

(** Modelled from the spec: [epmp_entry_decode] (implementation not among
    the sources), the inverse of the four encoders.  A TOR entry takes its
    lower bound from the address of the preceding entry (0 for entry 0);
    NA4 and NAPOT recover the bounds from the run of trailing one-bits; OFF
    gives the empty region at the stored address.  The region and the
    permissions are the two output arguments. *)
Definition epmp_entry_decode (s : epmp_state_t) (entry : epmp_entry_t)
  : epmp_result_t * option (epmp_region_t * epmp_permissions_t) :=
  if (kEpmpNumRegions <=? entry)%nat then (kEpmpBadArg, None)
  else
    let cfg := array_get (pmpcfg s) entry in
    let addr := array_get (pmpaddr s) entry in
    match pmpcfg_permissions cfg with
    | None => (kEpmpError, None)
    | Some permissions =>
        let region :=
          match pmpcfg_mode cfg with
          | kEpmpModeOff =>
              {| start := pmpaddr_decode addr; end_ := pmpaddr_decode addr |}
          | kEpmpModeTor =>
              {| start := match entry with
                          | O => 0
                          | S prev => pmpaddr_decode (array_get (pmpaddr s) prev)
                          end;
                 end_ := pmpaddr_decode addr |}
          | kEpmpModeNa4 =>
              {| start := pmpaddr_decode addr;
                 end_ := to_uint32 (pmpaddr_decode addr + 4) |}
          | kEpmpModeNapot =>
              let ones := trailing_ones 32 addr in
              let base := pmpaddr_decode (Z.ldiff addr (Z.ones ones)) in
              {| start := base;
                 end_ := to_uint32 (base + 2 ^ (ones + 3)) |}
          end in
        (kEpmpOk, Some (region, permissions))
    end.

(** A state whose two arrays have their sixteen elements. *)
Definition state_wf (s : epmp_state_t) : Prop :=
  length (pmpcfg s) = kEpmpNumRegions /\ length (pmpaddr s) = kEpmpNumRegions.

(** A region made of two [uintptr_t] values. *)
Definition region_in_range (r : epmp_region_t) : Prop :=
  0 <= start r < UINT32_MOD /\ 0 <= end_ r < UINT32_MOD.

(** A region whose two addresses are word aligned, so that the shifted
    address slots hold them without loss. *)
Definition region_word_aligned (r : epmp_region_t) : Prop :=
  start r mod 4 = 0 /\ end_ r mod 4 = 0.

(** The state with every entry disabled (all zero). *)
Definition epmp_state_zero : epmp_state_t :=
  {| pmpcfg := repeat 0 kEpmpNumRegions; pmpaddr := repeat 0 kEpmpNumRegions |}.

End Runtime.

(** ** Part II: the silicon creator library *)

Module SiliconCreator.

(** The PMP registers named by [epmp_state_check] and
    [epmp_unlock_test_status]. *)
Inductive csr_reg : Set :=
| CSR_REG_PMPCFG0 | CSR_REG_PMPCFG1 | CSR_REG_PMPCFG2 | CSR_REG_PMPCFG3
| CSR_REG_PMPADDR0 | CSR_REG_PMPADDR1 | CSR_REG_PMPADDR2 | CSR_REG_PMPADDR3
| CSR_REG_PMPADDR4 | CSR_REG_PMPADDR5 | CSR_REG_PMPADDR6 | CSR_REG_PMPADDR7
| CSR_REG_PMPADDR8 | CSR_REG_PMPADDR9 | CSR_REG_PMPADDR10 | CSR_REG_PMPADDR11
| CSR_REG_PMPADDR12 | CSR_REG_PMPADDR13 | CSR_REG_PMPADDR14 | CSR_REG_PMPADDR15
| CSR_REG_MSECCFG | CSR_REG_MSECCFGH.

#[global] Instance csr_reg_eq_dec : EqDecision csr_reg.
Proof. solve_decision. Defined.

(** The shadow state, as [epmp_state_check] uses it: four packed
    configuration words ([s->pmpcfg[0]] to [s->pmpcfg[3]]), sixteen address
    words ([s->pmpaddr[0]] to [s->pmpaddr[15]]) and the [mseccfg] word.
    The struct is declared in the library's header, which is not among the
    sources; the fields are the ones the check dereferences, each compared
    with a 32 bit register. *)
Record epmp_state_t : Type := {
  pmpcfg : list Z;
  pmpaddr : list Z;
  mseccfg : Z
}.

(** A region of the address space, [start] inclusive and [end] exclusive. *)
Record epmp_region_t : Type := {
  start : Z;
  end_ : Z
}.

(** One access to a control and status register. *)
Inductive csr_event : Type :=
| CsrRead (reg : csr_reg)
| CsrWrite (reg : csr_reg) (value : Z)
| CsrSetBits (reg : csr_reg) (mask : Z).

(** The machine: the live register file, the shadow state object in RAM
    that the [state] pointers of the library designate, and the record of
    the register accesses made so far (oldest first). *)
Record machine : Type := {
  csrs : csr_reg -> Z;
  shadow : epmp_state_t;
  csr_log : list csr_event
}.

(** The [state] argument of [epmp_unlock_test_status]: [NULL] or the address
    of the shadow state. *)
Inductive state_ptr : Set := NULL | SHADOW.

(** Code of the library runs in a state monad over the machine. *)
Definition csr_m (A : Type) : Type := machine -> A * machine.

Definition ret {A : Type} (a : A) : csr_m A := fun m => (a, m).

Definition bind {A B : Type} (c : csr_m A) (k : A -> csr_m B) : csr_m B :=
  fun m => let (a, m') := c m in k a m'.

Notation "x <- c ;; k" := (bind c (fun x => k))
  (at level 200, c at level 99, right associativity).
Notation "c ;;; k" := (bind c (fun _ => k))
  (at level 200, right associativity).

Definition csr_update (reg : csr_reg) (v : Z) (f : csr_reg -> Z) : csr_reg -> Z :=
  fun r => if decide (r = reg) then v else f r.

Definition log_event (e : csr_event) (m : machine) : machine :=
  {| csrs := csrs m; shadow := shadow m; csr_log := csr_log m ++ [e] |}.

(** Modelled from the spec: the register access macros [CSR_READ],
    [CSR_WRITE] and [CSR_SET_BITS] of [sw/device/lib/base/csr.h], which is
    not among the sources.  Reads and writes are whole-register and have no
    effect beyond the target register; a register holds 32 bits. *)
Definition CSR_READ (reg : csr_reg) : csr_m Z :=
  fun m => (csrs m reg, log_event (CsrRead reg) m).

Definition CSR_WRITE (reg : csr_reg) (val : Z) : csr_m unit :=
  fun m =>
    (tt, log_event (CsrWrite reg val)
           {| csrs := csr_update reg (to_uint32 val) (csrs m);
              shadow := shadow m; csr_log := csr_log m |}).

Definition CSR_SET_BITS (reg : csr_reg) (mask : Z) : csr_m unit :=
  fun m =>
    (tt, log_event (CsrSetBits reg mask)
           {| csrs := csr_update reg (Z.lor (csrs m reg) (to_uint32 mask)) (csrs m);
              shadow := shadow m; csr_log := csr_log m |}).

(** Loads and stores through a non-null [state] pointer. *)
Definition load_state : csr_m epmp_state_t := fun m => (shadow m, m).

Definition store_state (s : epmp_state_t) : csr_m unit :=
  fun m => (tt, {| csrs := csrs m; shadow := s; csr_log := csr_log m |}).

(** The macro [CHECK_CSR(reg, value)] of [epmp_state_check]:
    [{ uint32_t csr; CSR_READ(reg, &csr); result &= csr == (value); }]. *)
Definition CHECK_CSR (reg : csr_reg) (value : Z) (result : bool) : csr_m bool :=
  csr <- CSR_READ reg ;;
  ret (result && (csr =? value)).

(** [bool epmp_state_check(const epmp_state_t *s)]. *)
Definition epmp_state_check : csr_m bool :=
  s <- load_state ;;
  let result := true in
  (* Check address registers. *)
  result <- CHECK_CSR CSR_REG_PMPADDR0 (array_get (pmpaddr s) 0) result ;;
  result <- CHECK_CSR CSR_REG_PMPADDR1 (array_get (pmpaddr s) 1) result ;;
  result <- CHECK_CSR CSR_REG_PMPADDR2 (array_get (pmpaddr s) 2) result ;;
  result <- CHECK_CSR CSR_REG_PMPADDR3 (array_get (pmpaddr s) 3) result ;;
  result <- CHECK_CSR CSR_REG_PMPADDR4 (array_get (pmpaddr s) 4) result ;;
  result <- CHECK_CSR CSR_REG_PMPADDR5 (array_get (pmpaddr s) 5) result ;;
  result <- CHECK_CSR CSR_REG_PMPADDR6 (array_get (pmpaddr s) 6) result ;;
  result <- CHECK_CSR CSR_REG_PMPADDR7 (array_get (pmpaddr s) 7) result ;;
  result <- CHECK_CSR CSR_REG_PMPADDR8 (array_get (pmpaddr s) 8) result ;;
  result <- CHECK_CSR CSR_REG_PMPADDR9 (array_get (pmpaddr s) 9) result ;;
  result <- CHECK_CSR CSR_REG_PMPADDR10 (array_get (pmpaddr s) 10) result ;;
  result <- CHECK_CSR CSR_REG_PMPADDR11 (array_get (pmpaddr s) 11) result ;;
  result <- CHECK_CSR CSR_REG_PMPADDR12 (array_get (pmpaddr s) 12) result ;;
  result <- CHECK_CSR CSR_REG_PMPADDR13 (array_get (pmpaddr s) 13) result ;;
  result <- CHECK_CSR CSR_REG_PMPADDR14 (array_get (pmpaddr s) 14) result ;;
  result <- CHECK_CSR CSR_REG_PMPADDR15 (array_get (pmpaddr s) 15) result ;;
  (* Check configuration registers. *)
  result <- CHECK_CSR CSR_REG_PMPCFG0 (array_get (pmpcfg s) 0) result ;;
  result <- CHECK_CSR CSR_REG_PMPCFG1 (array_get (pmpcfg s) 1) result ;;
  result <- CHECK_CSR CSR_REG_PMPCFG2 (array_get (pmpcfg s) 2) result ;;
  result <- CHECK_CSR CSR_REG_PMPCFG3 (array_get (pmpcfg s) 3) result ;;
  (* Check Machine Security Configuration (MSECCFG) register.
     High bits are hardcoded to 0. *)
  result <- CHECK_CSR CSR_REG_MSECCFG (mseccfg s) result ;;
  result <- CHECK_CSR CSR_REG_MSECCFGH 0 result ;;
  ret result.

Section TestStatus.

(** The constants and the inline encoder that [test.c] takes from headers
    outside the sources: the address of the test-status window
    ([sw/device/lib/arch/device.h]), the NA4 mode and locked read/write
    permission bits of a configuration byte, and
    [epmp_state_configure_na4], which updates the shadow state in place. *)
Variable kDeviceTestStatusAddress : Z.
Variable kEpmpModeNa4 : Z.
Variable kEpmpPermLockedReadWrite : Z.
Variable epmp_state_configure_na4 :
  epmp_state_t -> nat -> epmp_region_t -> Z -> epmp_state_t.

(** PMP entry dedicated to test status (DV). *)
Definition kEntry : nat := 6.

(** Permissions to apply to test status address space. *)
Definition kPerm : Z := kEpmpPermLockedReadWrite.

(** [sizeof(uint32_t)]. *)
Definition sizeof_uint32 : Z := 4.

(** The region handed to [epmp_state_configure_na4]. *)
Definition test_status_region : epmp_region_t :=
  {| start := kDeviceTestStatusAddress;
     end_ := to_uint32 (kDeviceTestStatusAddress + sizeof_uint32) |}.

(** The bits set in [pmpcfg1]:
    [(kEpmpModeNa4 | kPerm) << ((kEntry % sizeof(uint32_t)) * 8)]. *)
Definition test_status_cfg_bits : Z :=
  Z.shiftl (Z.lor kEpmpModeNa4 kPerm)
           ((Z.of_nat kEntry mod sizeof_uint32) * 8).

(** [bool epmp_unlock_test_status(epmp_state_t *state)]. *)
Definition epmp_unlock_test_status (state : state_ptr) : csr_m bool :=
  (* Check that address space is word aligned. *)
  if negb (kDeviceTestStatusAddress mod sizeof_uint32 =? 0) then ret false
  else
    (* Update the shadow register values (if provided). *)
    match state with
    | SHADOW =>
        s <- load_state ;;
        store_state (epmp_state_configure_na4 s kEntry test_status_region kPerm)
    | NULL => ret tt
    end ;;;
    (* Update the hardware registers. *)
    CSR_WRITE CSR_REG_PMPADDR6 (kDeviceTestStatusAddress / sizeof_uint32) ;;;
    CSR_SET_BITS CSR_REG_PMPCFG1 test_status_cfg_bits ;;;
    (* Double check that the shadow registers match. *)
    match state with
    | SHADOW =>
        ok <- epmp_state_check ;;
        if negb ok then ret false else ret true
    | NULL => ret true
    end.

End TestStatus.

(** The address register of entry [i] and the configuration register of
    group [i]. *)
Definition pmpaddr_reg (i : nat) : csr_reg :=
  match i with
  | 0 => CSR_REG_PMPADDR0 | 1 => CSR_REG_PMPADDR1
  | 2 => CSR_REG_PMPADDR2 | 3 => CSR_REG_PMPADDR3
  | 4 => CSR_REG_PMPADDR4 | 5 => CSR_REG_PMPADDR5
  | 6 => CSR_REG_PMPADDR6 | 7 => CSR_REG_PMPADDR7
  | 8 => CSR_REG_PMPADDR8 | 9 => CSR_REG_PMPADDR9
  | 10 => CSR_REG_PMPADDR10 | 11 => CSR_REG_PMPADDR11
  | 12 => CSR_REG_PMPADDR12 | 13 => CSR_REG_PMPADDR13
  | 14 => CSR_REG_PMPADDR14 | _ => CSR_REG_PMPADDR15
  end%nat.

Definition pmpcfg_reg (i : nat) : csr_reg :=
  match i with
  | 0 => CSR_REG_PMPCFG0 | 1 => CSR_REG_PMPCFG1
  | 2 => CSR_REG_PMPCFG2 | _ => CSR_REG_PMPCFG3
  end%nat.

(** What each of the 22 registers is expected to hold, given the shadow
    state: the comparisons of [epmp_state_check], register by register. *)
Definition expected_csr (s : epmp_state_t) (reg : csr_reg) : Z :=
  match reg with
  | CSR_REG_PMPCFG0 => array_get (pmpcfg s) 0
  | CSR_REG_PMPCFG1 => array_get (pmpcfg s) 1
  | CSR_REG_PMPCFG2 => array_get (pmpcfg s) 2
  | CSR_REG_PMPCFG3 => array_get (pmpcfg s) 3
  | CSR_REG_PMPADDR0 => array_get (pmpaddr s) 0
  | CSR_REG_PMPADDR1 => array_get (pmpaddr s) 1
  | CSR_REG_PMPADDR2 => array_get (pmpaddr s) 2
  | CSR_REG_PMPADDR3 => array_get (pmpaddr s) 3
  | CSR_REG_PMPADDR4 => array_get (pmpaddr s) 4
  | CSR_REG_PMPADDR5 => array_get (pmpaddr s) 5
  | CSR_REG_PMPADDR6 => array_get (pmpaddr s) 6
  | CSR_REG_PMPADDR7 => array_get (pmpaddr s) 7
  | CSR_REG_PMPADDR8 => array_get (pmpaddr s) 8
  | CSR_REG_PMPADDR9 => array_get (pmpaddr s) 9
  | CSR_REG_PMPADDR10 => array_get (pmpaddr s) 10
  | CSR_REG_PMPADDR11 => array_get (pmpaddr s) 11
  | CSR_REG_PMPADDR12 => array_get (pmpaddr s) 12
  | CSR_REG_PMPADDR13 => array_get (pmpaddr s) 13
  | CSR_REG_PMPADDR14 => array_get (pmpaddr s) 14
  | CSR_REG_PMPADDR15 => array_get (pmpaddr s) 15
  | CSR_REG_MSECCFG => mseccfg s
  | CSR_REG_MSECCFGH => 0
  end.

(** The registers in the order in which [epmp_state_check] reads them. *)
Definition checked_regs : list csr_reg :=
  [ CSR_REG_PMPADDR0; CSR_REG_PMPADDR1; CSR_REG_PMPADDR2; CSR_REG_PMPADDR3;
    CSR_REG_PMPADDR4; CSR_REG_PMPADDR5; CSR_REG_PMPADDR6; CSR_REG_PMPADDR7;
    CSR_REG_PMPADDR8; CSR_REG_PMPADDR9; CSR_REG_PMPADDR10; CSR_REG_PMPADDR11;
    CSR_REG_PMPADDR12; CSR_REG_PMPADDR13; CSR_REG_PMPADDR14; CSR_REG_PMPADDR15;
    CSR_REG_PMPCFG0; CSR_REG_PMPCFG1; CSR_REG_PMPCFG2; CSR_REG_PMPCFG3;
    CSR_REG_MSECCFG; CSR_REG_MSECCFGH ].

(** Inverting bit [b] of live register [reg], as a fault would. *)
Definition flip_bit (reg : csr_reg) (b : Z) (m : machine) : machine :=
  {| csrs := csr_update reg (Z.lxor (csrs m reg) (2 ^ b)) (csrs m);
     shadow := shadow m; csr_log := csr_log m |}.

(** A machine whose registers and shadow state are all zero, with no access
    recorded. *)
Definition machine_zero : machine :=
  {| csrs := fun _ => 0;
     shadow := {| pmpcfg := repeat 0 4; pmpaddr := repeat 0 16; mseccfg := 0 |};
     csr_log := [] |}.

(** The machine [machine_zero] after a fault has set the low bit of
    [pmpaddr0]. *)
Definition machine_tampered : machine :=
  flip_bit CSR_REG_PMPADDR0 0 machine_zero.

(** Whether live register [reg] holds what the shadow state expects. *)
Definition csr_matches (m : machine) (reg : csr_reg) : bool :=
  csrs m reg =? expected_csr (shadow m) reg.

(** The comparisons of [epmp_state_check], spelled out per register. *)
Definition registers_match (m : machine) : Prop :=
  (forall i, (i < 16)%nat ->
     csrs m (pmpaddr_reg i) = array_get (pmpaddr (shadow m)) i) /\
  (forall i, (i < 4)%nat ->
     csrs m (pmpcfg_reg i) = array_get (pmpcfg (shadow m)) i) /\
  csrs m CSR_REG_MSECCFG = mseccfg (shadow m) /\
  csrs m CSR_REG_MSECCFGH = 0.

End SiliconCreator.

(** An instance of the parameters of [epmp_unlock_test_status], for
    checking the statements on: the window at 0x30000000 that [test.h]
    mentions, configuration byte values 0x10 for the mode and 0x83 for the
    permission, and an encoder that records the window in the slots of
    the entry. *)
Module UnlockExample.

Import SiliconCreator.

Definition example_configure_na4 (s : epmp_state_t) (entry : nat)
  (region : epmp_region_t) (perm : Z) : epmp_state_t :=
  {| pmpcfg :=
       array_set (pmpcfg s) (entry / 4)
         (Z.lor (array_get (pmpcfg s) (entry / 4))
            (Z.shiftl (Z.lor 0x10 perm) (8 * Z.of_nat (entry mod 4))));
     pmpaddr := array_set (pmpaddr s) entry (start region / 4);
     mseccfg := mseccfg s |}.

Definition example_unlock (state : state_ptr) : csr_m bool :=
  epmp_unlock_test_status 0x30000000 0x10 0x83 example_configure_na4 state.

End UnlockExample.

(** ** Part III: the retention SRAM driver and its functional test *)

Module RetentionSram.

(** The error codes that the driver and its test return.  They are
    enumerators of [rom_error_t] ([sw/device/silicon_creator/lib/error.h],
    not among the sources); distinct enumerators are distinct values. *)
Inductive rom_error_t : Set :=
| kErrorOk
| kErrorUnknown
| kErrorRetSramLocked.

Definition rom_error_eqb (a b : rom_error_t) : bool :=
  match a, b with
  | kErrorOk, kErrorOk => true
  | kErrorUnknown, kErrorUnknown => true
  | kErrorRetSramLocked, kErrorRetSramLocked => true
  | _, _ => false
  end.

(** What the code does that can be observed from outside: accesses to
    device registers and lines of the log, each line with its format
    string and its arguments. *)
Inductive event : Type :=
| MmioRead (addr : Z)
| MmioWrite (addr value : Z)
| LogInfo (format : string) (args : list Z)
| LogError (format : string) (args : list Z).

(** The machine: the device registers by address, the retention RAM as
    the array of 64 bit words that [ret_ram] points to, and the events so
    far (oldest first). *)
Record machine : Type := {
  mmio : Z -> Z;
  ret_ram : list Z;
  trace : list event
}.

Definition mmio_m (A : Type) : Type := machine -> A * machine.

Definition ret {A : Type} (a : A) : mmio_m A := fun m => (a, m).

Definition bind {A B : Type} (c : mmio_m A) (k : A -> mmio_m B) : mmio_m B :=
  fun m => let (a, m') := c m in k a m'.

Notation "x <- c ;; k" := (bind c (fun x => k))
  (at level 200, c at level 99, right associativity).
Notation "c ;;; k" := (bind c (fun _ => k))
  (at level 200, right associativity).

(** A [for] loop over the indices [xs], and one that carries a local
    variable through its iterations. *)
Fixpoint for_each {A : Type} (xs : list A) (body : A -> mmio_m unit)
  : mmio_m unit :=
  match xs with
  | [] => ret tt
  | x :: xs' => body x ;;; for_each xs' body
  end.

Fixpoint for_fold {A S : Type} (xs : list A) (body : A -> S -> mmio_m S)
  (acc : S) : mmio_m S :=
  match xs with
  | [] => ret acc
  | x :: xs' => acc' <- body x acc ;; for_fold xs' body acc'
  end.

Definition emit (e : event) : mmio_m unit :=
  fun m => (tt, {| mmio := mmio m; ret_ram := ret_ram m;
                   trace := trace m ++ [e] |}).

(** [LOG_INFO] and [LOG_ERROR] of [sw/device/lib/runtime/log.h]: a line of
    the log. *)
Definition LOG_INFO (format : string) (args : list Z) : mmio_m unit :=
  emit (LogInfo format args).

Definition LOG_ERROR (format : string) (args : list Z) : mmio_m unit :=
  emit (LogError format args).

(** Modelled from the spec: the primitive bit-field helpers
    [bitfield_bit32_read] and [bitfield_bit32_write]
    ([sw/device/lib/base/bitfield.h], not among the sources): reading one
    bit of a 32 bit word, and clearing it and setting it to a value. *)
Definition bitfield_bit32_read (bitfield bit_index : Z) : bool :=
  Z.land (Z.shiftr bitfield bit_index) 1 =? 1.

Definition bitfield_bit32_write (bitfield bit_index : Z) (value : bool) : Z :=
  to_uint32
    (Z.lor (Z.land bitfield (Z.lnot (Z.shiftl 1 bit_index)))
           (Z.shiftl (Z.b2z value) bit_index)).

(** Volatile stores to and loads from [ret_ram[i]]. *)
Definition ram_store (i : nat) (v : Z) : mmio_m unit :=
  fun m => (tt, {| mmio := mmio m; ret_ram := array_set (ret_ram m) i v;
                   trace := trace m |}).

Definition ram_load (i : nat) : mmio_m Z :=
  fun m => (array_get (ret_ram m) i, m).

Section Driver.

(** The constants of the generated headers ([top_earlgrey.h] and
    [sram_ctrl_regs.h]), which are not among the sources. *)
Variable TOP_EARLGREY_SRAM_CTRL_RET_AON_BASE_ADDR : Z.
Variable SRAM_CTRL_CTRL_REGWEN_REG_OFFSET : Z.
Variable SRAM_CTRL_CTRL_REGWEN_CTRL_REGWEN_BIT : Z.
Variable SRAM_CTRL_CTRL_REG_OFFSET : Z.
Variable SRAM_CTRL_CTRL_RENEW_SCR_KEY_BIT : Z.
Variable SRAM_CTRL_CTRL_INIT_BIT : Z.
Variable TOP_EARLGREY_RAM_RET_AON_BASE_ADDR : Z.
Variable TOP_EARLGREY_RAM_RET_AON_SIZE_BYTES : Z.

(** What the SRAM controller makes of the retention RAM when one of its
    registers is written: from the address, the word written and the RAM
    before, the RAM after.  (A request to renew the key leaves the RAM with
    values that the software does not choose.) *)
Variable sram_ctrl_write : Z -> Z -> list Z -> list Z.

(** Modelled from the spec: the register access layer [abs_mmio_read32]
    and [abs_mmio_write32] ([sw/device/silicon_creator/lib/base/abs_mmio.h],
    not among the sources): whole-register reads and writes of 32 bits at
    an absolute address; a write is also what the device reacts to. *)
Definition abs_mmio_read32 (addr : Z) : mmio_m Z :=
  fun m => (mmio m addr,
            {| mmio := mmio m; ret_ram := ret_ram m;
               trace := trace m ++ [MmioRead addr] |}).

Definition abs_mmio_write32 (addr value : Z) : mmio_m unit :=
  fun m => (tt,
            {| mmio := fun a => if a =? addr then to_uint32 value else mmio m a;
               ret_ram := sram_ctrl_write addr (to_uint32 value) (ret_ram m);
               trace := trace m ++ [MmioWrite addr value] |}).

(** Base address of retention SRAM controller. *)
Definition kBase : Z := TOP_EARLGREY_SRAM_CTRL_RET_AON_BASE_ADDR.

(** [rom_error_t retention_sram_scramble(void)]. *)
Definition retention_sram_scramble : mmio_m rom_error_t :=
  (* Check that control register writes are enabled. *)
  regwen <- abs_mmio_read32
              (to_uint32 (kBase + SRAM_CTRL_CTRL_REGWEN_REG_OFFSET)) ;;
  if negb (bitfield_bit32_read regwen SRAM_CTRL_CTRL_REGWEN_CTRL_REGWEN_BIT)
  then ret kErrorRetSramLocked
  else
    (* Request the renewal of the scrambling key and initialization to
       random values. *)
    let ctrl := 0 in
    let ctrl :=
      bitfield_bit32_write ctrl SRAM_CTRL_CTRL_RENEW_SCR_KEY_BIT true in
    let ctrl := bitfield_bit32_write ctrl SRAM_CTRL_CTRL_INIT_BIT true in
    abs_mmio_write32 (to_uint32 (kBase + SRAM_CTRL_CTRL_REG_OFFSET)) ctrl ;;;
    ret kErrorOk.

(** The number of 64 bit words of the retention RAM:
    [TOP_EARLGREY_RAM_RET_AON_SIZE_BYTES / sizeof(ret_ram[0])]. *)
Definition ret_ram_len : nat :=
  Z.to_nat (TOP_EARLGREY_RAM_RET_AON_SIZE_BYTES / 8).

(** The address [&ret_ram[i]]. *)
Definition ret_ram_addr (i : nat) : Z :=
  to_uint32 (TOP_EARLGREY_RAM_RET_AON_BASE_ADDR + 8 * Z.of_nat i).

(** The body of the second loop of [retention_sram_test]. *)
Definition check_word (i : nat) (matches : Z) : mmio_m Z :=
  v <- ram_load i ;;
  if v =? 0 then
    LOG_ERROR "Retention SRAM potentially unscrambled at %p."
      [ret_ram_addr i] ;;;
    ret (to_uint32 (matches + 1))
  else ret matches.

(** [rom_error_t retention_sram_test(void)]. *)
Definition retention_sram_test : mmio_m rom_error_t :=
  (* Set the retention SRAM to known values. *)
  LOG_INFO "Initializing retention SRAM." [] ;;;
  for_each (seq 0 ret_ram_len) (fun i => ram_store i 0) ;;;
  (* Scramble the retention SRAM. *)
  LOG_INFO "Scrambling retention SRAM." [] ;;;
  err <- retention_sram_scramble ;;
  if negb (rom_error_eqb err kErrorOk) then
    LOG_ERROR "Scrambling failed." [] ;;;
    ret kErrorUnknown
  else
    (* Check that every entry in the retention SRAM has changed. *)
    let matches := 0 in
    LOG_INFO
      "Checking retention SRAM is scrambled (will stall for a short time)."
      [] ;;;
    matches <- for_fold (seq 0 ret_ram_len) check_word matches ;;
    LOG_INFO "Finishing retention SRAM scrambling test (matches=%u)."
      [matches] ;;;
    ret (if negb (matches =? 0) then kErrorUnknown else kErrorOk).

(** The addresses of the two controller registers that the driver uses,
    and the word that requests the scrambling. *)
Definition regwen_addr : Z :=
  to_uint32 (kBase + SRAM_CTRL_CTRL_REGWEN_REG_OFFSET).

Definition ctrl_addr : Z :=
  to_uint32 (kBase + SRAM_CTRL_CTRL_REG_OFFSET).

Definition scramble_request : Z :=
  Z.lor (2 ^ SRAM_CTRL_CTRL_RENEW_SCR_KEY_BIT) (2 ^ SRAM_CTRL_CTRL_INIT_BIT).

(** The indices, among the words of the retention RAM, of those that read
    as zero. *)
Definition zero_words (ram : list Z) : list nat :=
  filter (fun i => array_get ram i = 0) (seq 0 ret_ram_len).

End Driver.

(** A small instance, for checking the statements on: a controller at
    0x40500000 with the write-enable register at offset 0x10 (bit 0) and
    the control register at offset 0x14 (bits 0 and 1), a retention RAM of
    four words at 0x40600000, and a controller that fills the RAM with a
    pattern in which the third word happens to be zero. *)
Definition example_sram_ctrl_write (addr value : Z) (ram : list Z) : list Z :=
  if (addr =? 0x40500014) && (value =? 3)
  then [0x1122334455667788; 0x99aabbccddeeff00; 0; 0x0123456789abcdef]
  else ram.

Definition example_machine (regwen : Z) : machine :=
  {| mmio := fun a => if a =? 0x40500010 then regwen else 0;
     ret_ram := [7; 7; 7; 7];
     trace := [] |}.

Definition example_scramble : mmio_m rom_error_t :=
  retention_sram_scramble 0x40500000 0x10 0 0x14 0 1 example_sram_ctrl_write.

Definition example_test : mmio_m rom_error_t :=
  retention_sram_test 0x40500000 0x10 0 0x14 0 1 0x40600000 32
    example_sram_ctrl_write.

End RetentionSram.

(** ** Properties of the silicon creator library *)

Module CheckProofs.

Import SiliconCreator.

Lemma fold_left_andb {A : Type} (f : A -> bool) (xs : list A) (b : bool) :
  fold_left (fun acc x => acc && f x) xs b = b && forallb f xs.
Proof.
  revert b. induction xs as [|x xs IH]; intros b; cbn.
  - now rewrite andb_true_r.
  - rewrite IH. now rewrite andb_assoc.
Qed.

Lemma fold_left_snoc {A B : Type} (g : A -> B) (xs : list A) (l : list B) :
  fold_left (fun acc x => acc ++ [g x]) xs l = l ++ map g xs.
Proof.
  revert l. induction xs as [|x xs IH]; intros l; cbn.
  - now rewrite app_nil_r.
  - rewrite IH. now rewrite <- app_assoc.
Qed.

(** [epmp_state_check] run on any machine: the value it returns and the
    machine it leaves. *)
Lemma epmp_state_check_run (m : machine) :
  epmp_state_check m =
  (forallb (csr_matches m) checked_regs,
   {| csrs := csrs m; shadow := shadow m;
      csr_log := csr_log m ++ map CsrRead checked_regs |}).
Proof.
  rewrite <- (fold_left_snoc CsrRead), <- (andb_true_l (forallb _ _)).
  rewrite <- fold_left_andb.
  destruct m as [c s l]. reflexivity.
Qed.

Lemma checked_regs_complete (reg : csr_reg) : In reg checked_regs.
Proof. destruct reg; cbn; tauto. Qed.

Lemma epmp_state_check_true (m : machine) :
  fst (epmp_state_check m) = true <->
  forall reg, csrs m reg = expected_csr (shadow m) reg.
Proof.
  rewrite epmp_state_check_run. cbn [fst].
  rewrite forallb_forall. unfold csr_matches. split.
  - intros H reg. apply Z.eqb_eq, H, checked_regs_complete.
  - intros H reg _. apply Z.eqb_eq, H.
Qed.

Lemma epmp_state_check_false (m : machine) (reg : csr_reg) :
  csrs m reg <> expected_csr (shadow m) reg ->
  fst (epmp_state_check m) = false.
Proof.
  intros Hne. destruct (fst (epmp_state_check m)) eqn:E; [|reflexivity].
  exfalso. apply Hne. now apply epmp_state_check_true.
Qed.

Lemma lxor_pow2_neq (v b : Z) : 0 <= b -> Z.lxor v (2 ^ b) <> v.
Proof.
  intros Hb Heq.
  assert (H : 2 ^ b = Z.lxor v (Z.lxor v (2 ^ b)))
    by now rewrite <- Z.lxor_assoc, Z.lxor_nilpotent, Z.lxor_0_l.
  rewrite Heq, Z.lxor_nilpotent in H.
  assert (0 < 2 ^ b) by (apply Z.pow_pos_nonneg; lia). lia.
Qed.

Lemma csr_update_same (reg : csr_reg) (v : Z) (f : csr_reg -> Z) :
  csr_update reg v f reg = v.
Proof. unfold csr_update. destruct (decide (reg = reg)); congruence. Qed.

Lemma csr_update_other (reg r : csr_reg) (v : Z) (f : csr_reg -> Z) :
  r <> reg -> csr_update reg v f r = f r.
Proof. unfold csr_update. intros. destruct (decide (r = reg)); congruence. Qed.

Lemma pmpaddr_reg_expected (s : epmp_state_t) (i : nat) :
  (i < 16)%nat -> expected_csr s (pmpaddr_reg i) = array_get (pmpaddr s) i.
Proof.
  intros Hi. do 16 (destruct i as [|i]; [reflexivity|]). lia.
Qed.

Lemma pmpcfg_reg_expected (s : epmp_state_t) (i : nat) :
  (i < 4)%nat -> expected_csr s (pmpcfg_reg i) = array_get (pmpcfg s) i.
Proof.
  intros Hi. do 4 (destruct i as [|i]; [reflexivity|]). lia.
Qed.

Lemma registers_match_iff (m : machine) :
  registers_match m <-> forall reg, csrs m reg = expected_csr (shadow m) reg.
Proof.
  unfold registers_match. split.
  - intros (Ha & Hc & Hs & Hh) reg.
    destruct reg; try exact Hs; try exact Hh;
      first [ apply (Hc 0%nat); lia | apply (Hc 1%nat); lia
            | apply (Hc 2%nat); lia | apply (Hc 3%nat); lia
            | apply (Ha 0%nat); lia | apply (Ha 1%nat); lia
            | apply (Ha 2%nat); lia | apply (Ha 3%nat); lia
            | apply (Ha 4%nat); lia | apply (Ha 5%nat); lia
            | apply (Ha 6%nat); lia | apply (Ha 7%nat); lia
            | apply (Ha 8%nat); lia | apply (Ha 9%nat); lia
            | apply (Ha 10%nat); lia | apply (Ha 11%nat); lia
            | apply (Ha 12%nat); lia | apply (Ha 13%nat); lia
            | apply (Ha 14%nat); lia | apply (Ha 15%nat); lia ].
  - intros H. repeat split.
    + intros i Hi. rewrite H. now apply pmpaddr_reg_expected.
    + intros i Hi. rewrite H. now apply pmpcfg_reg_expected.
    + apply (H CSR_REG_MSECCFG).
    + apply (H CSR_REG_MSECCFGH).
Qed.

(** C10: [epmp_state_check] reads each of the 22 registers (the sixteen
    [pmpaddr], the four [pmpcfg], [mseccfg] and [mseccfgh]) once and in
    program order whatever the earlier comparisons gave, returns the
    conjunction of the 22 equality tests, and leaves the expected state
    (and the registers) as they were. *)
Theorem epmp_state_check_reads_all_and_conjoins (m : machine) :
  let (result, m') := epmp_state_check m in
  csr_log m' = csr_log m ++ map CsrRead checked_regs /\
  length checked_regs = 22%nat /\
  NoDup checked_regs /\
  result = forallb (fun reg => csrs m reg =? expected_csr (shadow m) reg)
                   checked_regs /\
  shadow m' = shadow m /\
  csrs m' = csrs m.
Proof.
  rewrite epmp_state_check_run. cbn [csr_log shadow csrs].
  repeat split.
  unfold checked_regs.
  repeat (apply NoDup_cons; split;
          [ cbn; intros Hin; rewrite ?elem_of_cons in Hin;
            repeat (destruct Hin as [Hin|Hin]; [discriminate|]);
            now apply elem_of_nil in Hin | ]).
  apply NoDup_nil_2.
Qed.

(** C3: [epmp_state_check] succeeds exactly when the sixteen [pmpaddr]
    registers, the four [pmpcfg] registers and [mseccfg] hold the values of
    the expected state and [mseccfgh] holds zero.  It fails as soon as one
    of these registers differs from its expected value in a single bit;
    in particular, once it succeeds, inverting any one bit of any one of
    the registers makes it fail. *)
Theorem epmp_state_check_iff_registers_match (m : machine) :
  (fst (epmp_state_check m) = true <-> registers_match m) /\
  (forall reg b, 0 <= b < 32 ->
     csrs m reg = Z.lxor (expected_csr (shadow m) reg) (2 ^ b) ->
     fst (epmp_state_check m) = false) /\
  (forall reg b, 0 <= b < 32 ->
     fst (epmp_state_check m) = true ->
     fst (epmp_state_check (flip_bit reg b m)) = false).
Proof.
  split; [|split].
  - rewrite registers_match_iff. apply epmp_state_check_true.
  - intros reg b Hb Hdiff.
    apply (epmp_state_check_false _ reg).
    rewrite Hdiff. apply lxor_pow2_neq. lia.
  - intros reg b Hb Hok.
    apply (epmp_state_check_false _ reg).
    unfold flip_bit. cbn [csrs shadow].
    rewrite csr_update_same.
    rewrite (proj1 (epmp_state_check_true m) Hok reg).
    apply lxor_pow2_neq. lia.
Qed.

Lemma epmp_state_check_iff_registers_match_witness :
  fst (epmp_state_check machine_zero) = true /\
  fst (epmp_state_check (flip_bit CSR_REG_PMPCFG2 7 machine_zero)) = false.
Proof.
  destruct (epmp_state_check_iff_registers_match machine_zero)
    as (_ & _ & Hflip).
  split; [reflexivity|].
  apply Hflip; [lia | reflexivity].
Defined.

(** C1, as stated, fails: with live registers and expected state all zero
    the check succeeds although every bit of the live [mseccfg], whichever
    positions RLB and MMWP have, is clear. *)
Lemma epmp_state_check_accepts_cleared_mseccfg :
  fst (epmp_state_check machine_zero) = true /\
  (forall bit, Z.testbit (csrs machine_zero CSR_REG_MSECCFG) bit = false).
Proof.
  split; [reflexivity|]. intros bit. cbn. apply Z.testbit_0_l.
Qed.

(** C1, amended: when [epmp_state_check] succeeds the live [mseccfg] equals
    the [mseccfg] word of the expected state and [mseccfgh] is zero, so
    every bit of the live register, RLB, MML and MMWP among them, has the
    value that the expected state encodes for it. *)
Theorem epmp_state_check_mseccfg_as_expected (m : machine) :
  fst (epmp_state_check m) = true ->
  csrs m CSR_REG_MSECCFG = mseccfg (shadow m) /\
  csrs m CSR_REG_MSECCFGH = 0 /\
  (forall bit,
     Z.testbit (csrs m CSR_REG_MSECCFG) bit =
     Z.testbit (mseccfg (shadow m)) bit).
Proof.
  intros Hok.
  pose proof (proj1 (epmp_state_check_true m) Hok) as H.
  pose proof (H CSR_REG_MSECCFG) as Hs. pose proof (H CSR_REG_MSECCFGH) as Hh.
  cbn [expected_csr] in Hs, Hh.
  repeat split; try assumption. intros bit. now rewrite Hs.
Qed.

Lemma epmp_state_check_mseccfg_as_expected_witness :
  csrs machine_zero CSR_REG_MSECCFG = mseccfg (shadow machine_zero) /\
  csrs machine_zero CSR_REG_MSECCFGH = 0 /\
  (forall bit,
     Z.testbit (csrs machine_zero CSR_REG_MSECCFG) bit =
     Z.testbit (mseccfg (shadow machine_zero)) bit).
Proof.
  apply (epmp_state_check_mseccfg_as_expected machine_zero). reflexivity.
Defined.

(** C2: a failed comparison of a live register with the expected state
    makes [epmp_state_check] return [false], and nothing else does: [false]
    is returned exactly when some register differs from its expected value
    and [true] exactly when none does.  The failure outcome of the check
    therefore always reports a mismatch; the function validates no argument
    and has no other way to fail, so the outcome cannot stand for a generic
    error or for a configuration-time error.  In the result codes of the
    runtime header, likewise, [kEpmpSetMismatch] has a value of its own,
    different from those of the success, generic error and bad argument
    codes of its enumeration. *)
Theorem epmp_state_check_false_on_any_mismatch (m : machine) :
  (fst (epmp_state_check m) = false <->
   exists reg, csrs m reg <> expected_csr (shadow m) reg) /\
  (fst (epmp_state_check m) = true <->
   forall reg, csrs m reg = expected_csr (shadow m) reg) /\
  (forall r : Runtime.epmp_set_result_t,
     r <> Runtime.kEpmpSetMismatch ->
     Runtime.epmp_set_result_value r <>
     Runtime.epmp_set_result_value Runtime.kEpmpSetMismatch).
Proof.
  split; [|split].
  - split.
    + rewrite epmp_state_check_run. cbn [fst]. intros Hf.
      assert (Hex : Exists (fun reg => csr_matches m reg = false)
                      checked_regs).
      { induction checked_regs as [|reg regs IH]; [discriminate|].
        cbn [forallb] in Hf. apply andb_false_iff in Hf as [Hf|Hf].
        - now apply Exists_cons_hd.
        - apply Exists_cons_tl. exact (IH Hf). }
      apply Exists_exists in Hex as (reg & _ & Hreg).
      exists reg. unfold csr_matches in Hreg. now apply Z.eqb_neq.
    + intros [reg Hne]. now apply (epmp_state_check_false m reg).
  - apply epmp_state_check_true.
  - intros r Hr. destruct r; cbn; (discriminate || congruence).
Qed.

Lemma epmp_state_check_false_on_any_mismatch_witness :
  fst (epmp_state_check machine_tampered) = false /\
  fst (epmp_state_check machine_zero) = true /\
  (exists reg,
     csrs machine_tampered reg <> expected_csr (shadow machine_tampered) reg).
Proof.
  destruct (epmp_state_check_false_on_any_mismatch machine_tampered)
    as ([Hfalse Hback] & _ & _).
  destruct (epmp_state_check_false_on_any_mismatch machine_zero)
    as (_ & [_ Htrue] & _).
  assert (Hf : fst (epmp_state_check machine_tampered) = false).
  { apply Hback. exists CSR_REG_PMPADDR0. cbn. discriminate. }
  split; [exact Hf|]. split.
  - apply Htrue. intros reg. destruct reg; reflexivity.
  - exact (Hfalse Hf).
Defined.

Section TestStatusProofs.

Variable kDeviceTestStatusAddress : Z.
Variable kEpmpModeNa4 : Z.
Variable kEpmpPermLockedReadWrite : Z.
Variable epmp_state_configure_na4 :
  epmp_state_t -> nat -> epmp_region_t -> Z -> epmp_state_t.

(** The machine after the two register writes of
    [epmp_unlock_test_status], before any read-back. *)
Lemma unlock_writes (m : machine) (s' : epmp_state_t) :
  (CSR_WRITE CSR_REG_PMPADDR6 (kDeviceTestStatusAddress / sizeof_uint32) ;;;
   CSR_SET_BITS CSR_REG_PMPCFG1
     (test_status_cfg_bits kEpmpModeNa4 kEpmpPermLockedReadWrite))
    {| csrs := csrs m; shadow := s'; csr_log := csr_log m |} =
  (tt,
   {| csrs :=
        csr_update CSR_REG_PMPCFG1
          (Z.lor (csrs m CSR_REG_PMPCFG1)
             (to_uint32
                (test_status_cfg_bits kEpmpModeNa4 kEpmpPermLockedReadWrite)))
          (csr_update CSR_REG_PMPADDR6
             (to_uint32 (kDeviceTestStatusAddress / sizeof_uint32)) (csrs m));
      shadow := s';
      csr_log := csr_log m ++
        [CsrWrite CSR_REG_PMPADDR6 (kDeviceTestStatusAddress / sizeof_uint32);
         CsrSetBits CSR_REG_PMPCFG1
           (test_status_cfg_bits kEpmpModeNa4 kEpmpPermLockedReadWrite)] |}).
Proof.
  unfold bind, CSR_WRITE, CSR_SET_BITS, log_event.
  cbn [csrs shadow csr_log]. f_equal. f_equal.
  now rewrite <- app_assoc.
Qed.

(** C8: when the test-status window is word aligned,
    [epmp_unlock_test_status] called with a shadow state stores in it the
    result of [epmp_state_configure_na4] on entry 6 for the four-byte
    window, writes [pmpaddr6] and then sets the bits of entry 6 in
    [pmpcfg1], reads back the 22 registers, and returns [true] exactly when
    they all match the updated shadow state.  Called without a shadow state
    ([NULL]) it makes the two register writes only and returns [true].
    When the window is not word aligned it returns [false] at once. *)
Theorem epmp_unlock_test_status_composes (state : state_ptr) (m : machine) :
  let (ok, m') :=
    epmp_unlock_test_status kDeviceTestStatusAddress kEpmpModeNa4
      kEpmpPermLockedReadWrite epmp_state_configure_na4 state m in
  if kDeviceTestStatusAddress mod sizeof_uint32 =? 0 then
    kEntry = 6%nat /\
    start (test_status_region kDeviceTestStatusAddress)
      = kDeviceTestStatusAddress /\
    end_ (test_status_region kDeviceTestStatusAddress)
      = to_uint32 (kDeviceTestStatusAddress + 4) /\
    test_status_cfg_bits kEpmpModeNa4 kEpmpPermLockedReadWrite
      = Z.shiftl (Z.lor kEpmpModeNa4 kEpmpPermLockedReadWrite) 16 /\
    shadow m' =
      match state with
      | SHADOW =>
          epmp_state_configure_na4 (shadow m) kEntry
            (test_status_region kDeviceTestStatusAddress)
            kEpmpPermLockedReadWrite
      | NULL => shadow m
      end /\
    csr_log m' =
      csr_log m ++
      [CsrWrite CSR_REG_PMPADDR6 (kDeviceTestStatusAddress / sizeof_uint32);
       CsrSetBits CSR_REG_PMPCFG1
         (test_status_cfg_bits kEpmpModeNa4 kEpmpPermLockedReadWrite)] ++
      match state with
      | SHADOW => map CsrRead checked_regs
      | NULL => []
      end /\
    csrs m' CSR_REG_PMPADDR6 =
      to_uint32 (kDeviceTestStatusAddress / sizeof_uint32) /\
    csrs m' CSR_REG_PMPCFG1 =
      Z.lor (csrs m CSR_REG_PMPCFG1)
        (to_uint32
           (test_status_cfg_bits kEpmpModeNa4 kEpmpPermLockedReadWrite)) /\
    (forall reg, reg <> CSR_REG_PMPADDR6 -> reg <> CSR_REG_PMPCFG1 ->
       csrs m' reg = csrs m reg) /\
    (ok = true <-> (state = SHADOW -> registers_match m'))
  else ok = false /\ m' = m.
Proof.
  unfold epmp_unlock_test_status.
  destruct (kDeviceTestStatusAddress mod sizeof_uint32 =? 0) eqn:Hal;
    cbn [negb]; [|unfold ret; auto].
  destruct m as [c s l].
  set (s' := match state with
             | SHADOW =>
                 epmp_state_configure_na4 s kEntry
                   (test_status_region kDeviceTestStatusAddress)
                   (kPerm kEpmpPermLockedReadWrite)
             | NULL => s
             end).
  pose proof (unlock_writes {| csrs := c; shadow := s; csr_log := l |} s')
    as Hw.
  cbn [csrs shadow csr_log] in Hw.
  set (m2 := {| csrs := csr_update CSR_REG_PMPCFG1 _ _;
                shadow := s'; csr_log := _ |}) in Hw.
  assert (Hcsr :
    csrs m2 CSR_REG_PMPADDR6 =
      to_uint32 (kDeviceTestStatusAddress / sizeof_uint32) /\
    csrs m2 CSR_REG_PMPCFG1 =
      Z.lor (c CSR_REG_PMPCFG1)
        (to_uint32
           (test_status_cfg_bits kEpmpModeNa4 kEpmpPermLockedReadWrite)) /\
    (forall reg, reg <> CSR_REG_PMPADDR6 -> reg <> CSR_REG_PMPCFG1 ->
       csrs m2 reg = c reg)).
  { split; [reflexivity|]. split; [reflexivity|].
    intros reg H6 H1. subst m2. cbn [csrs].
    now rewrite !csr_update_other by assumption. }
  destruct Hcsr as (Haddr & Hcfg & Hrest).
  destruct state.
  - (* state == NULL *)
    unfold bind at 1. unfold ret at 1.
    unfold bind in Hw |- *.
    destruct (CSR_WRITE CSR_REG_PMPADDR6 _ _) as [[] m1].
    destruct (CSR_SET_BITS CSR_REG_PMPCFG1 _ m1) as [[] m2'].
    injection Hw as ->. unfold ret.
    do 4 (split; [reflexivity|]). split; [reflexivity|].
    split; [reflexivity|].
    split; [exact Haddr|]. split; [exact Hcfg|]. split; [exact Hrest|].
    split; [discriminate | reflexivity].
  - (* state != NULL *)
    unfold bind at 1. unfold bind at 1. unfold load_state, store_state.
    cbn [csrs shadow csr_log].
    unfold bind in Hw |- *.
    destruct (CSR_WRITE CSR_REG_PMPADDR6 _ _) as [[] m1].
    destruct (CSR_SET_BITS CSR_REG_PMPCFG1 _ m1) as [[] m2'].
    injection Hw as ->.
    pose proof (epmp_state_check_true m2) as Hchk.
    rewrite epmp_state_check_run in Hchk |- *.
    cbn [fst] in Hchk.
    set (ok := forallb _ checked_regs) in *.
    assert (Hret : forall mm,
               (if negb ok then ret false else ret true) mm = (ok, mm))
      by (intros mm; destruct ok; reflexivity).
    rewrite Hret. cbn [csrs shadow csr_log].
    do 4 (split; [reflexivity|]). split; [reflexivity|].
    split; [subst m2; cbn [csr_log]; now rewrite <- app_assoc|].
    split; [exact Haddr|]. split; [exact Hcfg|]. split; [exact Hrest|].
    rewrite registers_match_iff. cbn [csrs shadow].
    split; [intros Hok _; now apply Hchk | intros Hm; now apply Hchk, Hm].
Qed.

End TestStatusProofs.

End CheckProofs.

(** ** Properties of the region codec of the runtime library *)

Module CodecProofs.

Import Runtime.

(** *** Arrays *)

Lemma array_get_set_same (a : list Z) (i : nat) (v : Z) :
  (i < length a)%nat -> array_get (array_set a i v) i = v.
Proof.
  intros Hi. unfold array_get, array_set.
  now rewrite list_lookup_insert_eq.
Qed.

Lemma array_get_set_other (a : list Z) (i j : nat) (v : Z) :
  i <> j -> array_get (array_set a i v) j = array_get a j.
Proof.
  intros Hij. unfold array_get, array_set.
  now rewrite list_lookup_insert_ne.
Qed.

Lemma array_set_length (a : list Z) (i : nat) (v : Z) :
  length (array_set a i v) = length a.
Proof. apply length_insert. Qed.

Lemma write_entry_wf (s : epmp_state_t) (entry : epmp_entry_t) (addr cfg : Z) :
  state_wf s -> state_wf (write_entry s entry addr cfg).
Proof.
  intros [Hc Ha]. split; cbn; now rewrite array_set_length.
Qed.

Lemma write_addr_wf (s : epmp_state_t) (entry : epmp_entry_t) (addr : Z) :
  state_wf s -> state_wf (write_addr s entry addr).
Proof.
  intros [Hc Ha]. split; cbn; [assumption | now rewrite array_set_length].
Qed.

Lemma epmp_state_zero_wf : state_wf epmp_state_zero.
Proof. split; reflexivity. Qed.

(** *** Configuration bytes *)

Lemma pmpcfg_mode_encode (a : epmp_address_mode_t) (p : epmp_permissions_t) :
  pmpcfg_mode (pmpcfg_encode a p) = a.
Proof. destruct a, p; reflexivity. Qed.

Lemma pmpcfg_permissions_encode (a : epmp_address_mode_t)
  (p : epmp_permissions_t) :
  pmpcfg_permissions (pmpcfg_encode a p) = Some p.
Proof. destruct a, p; reflexivity. Qed.

(** *** Addresses *)

Lemma pmpaddr_encode_div (addr : Z) : pmpaddr_encode addr = addr / 4.
Proof. unfold pmpaddr_encode. now rewrite Z.shiftr_div_pow2 by lia. Qed.

Lemma pmpaddr_decode_mul (v : Z) : pmpaddr_decode v = to_uint32 (v * 4).
Proof. unfold pmpaddr_decode. now rewrite Z.shiftl_mul_pow2 by lia. Qed.

Lemma to_uint32_small (z : Z) : 0 <= z < UINT32_MOD -> to_uint32 z = z.
Proof. intros H. apply Z.mod_small, H. Qed.

Lemma pmpaddr_decode_encode (addr : Z) :
  0 <= addr < UINT32_MOD -> addr mod 4 = 0 ->
  pmpaddr_decode (pmpaddr_encode addr) = addr.
Proof.
  intros Hr Hal. rewrite pmpaddr_decode_mul, pmpaddr_encode_div.
  replace (addr / 4 * 4) with addr
    by (pose proof (Z.div_mod addr 4); lia).
  now apply to_uint32_small.
Qed.

(** An address slot equals the shifted form of a word-aligned address
    exactly when it decodes to that address. *)
Lemma pmpaddr_match_iff (slot addr : Z) :
  0 <= slot < 2 ^ 30 -> 0 <= addr < UINT32_MOD -> addr mod 4 = 0 ->
  slot = pmpaddr_encode addr <-> pmpaddr_decode slot = addr.
Proof.
  intros Hs Hr Hal. split.
  - intros ->. now apply pmpaddr_decode_encode.
  - intros <-. rewrite pmpaddr_decode_mul, pmpaddr_encode_div.
    rewrite to_uint32_small by (unfold UINT32_MOD; lia).
    now rewrite Z.div_mul by lia.
Qed.

(** *** Failure leaves the state alone (C6) *)

Ltac run_configure :=
  repeat match goal with
         | |- context [if ?b then _ else _] => destruct b eqn:?
         | |- context [match ?e with O => _ | S _ => _ end] => destruct e eqn:?
         | |- context [match pmpcfg_mode ?c with _ => _ end] =>
             destruct (pmpcfg_mode c) eqn:?
         end.

Lemma configure_failure_keeps_state (granularity : Z) (a : epmp_address_mode_t)
  (s : epmp_state_t) (entry : epmp_entry_t) (region : epmp_region_t)
  (p : epmp_permissions_t) :
  fst (epmp_entry_configure granularity a s entry region p)
    <> kEpmpRegionConfigureOk ->
  snd (epmp_entry_configure granularity a s entry region p) = s.
Proof.
  destruct a; cbn [epmp_entry_configure];
    unfold epmp_entry_configure_off, epmp_entry_configure_tor,
      epmp_entry_configure_na4, epmp_entry_configure_napot;
    run_configure; cbn [fst snd]; congruence.
Qed.

Lemma configure_bad_entry (granularity : Z) (a : epmp_address_mode_t)
  (s : epmp_state_t) (entry : epmp_entry_t) (region : epmp_region_t)
  (p : epmp_permissions_t) :
  (kEpmpNumRegions <= entry)%nat ->
  epmp_entry_configure granularity a s entry region p
    = (kEpmpRegionConfigureBadArg, s).
Proof.
  intros Hge. apply Nat.leb_le in Hge.
  destruct a; cbn [epmp_entry_configure];
    unfold epmp_entry_configure_off, epmp_entry_configure_tor,
      epmp_entry_configure_na4, epmp_entry_configure_napot;
    now rewrite Hge.
Qed.

(** C6: each of the four configuration operations, called with an entry
    index of 16 or more, returns [BadArg] and the state it was given; and
    whenever a call is rejected, whatever the error, the state after the
    call is the state before it. *)
Theorem configure_rejected_leaves_state (granularity : Z)
  (a : epmp_address_mode_t) (s : epmp_state_t) (entry : epmp_entry_t)
  (region : epmp_region_t) (p : epmp_permissions_t) :
  ((16 <= entry)%nat ->
   epmp_entry_configure granularity a s entry region p
     = (kEpmpRegionConfigureBadArg, s)) /\
  (forall res s',
     epmp_entry_configure granularity a s entry region p = (res, s') ->
     res <> kEpmpRegionConfigureOk -> s' = s).
Proof.
  split.
  - apply configure_bad_entry.
  - intros res s' Hrun Hres.
    pose proof (configure_failure_keeps_state granularity a s entry region p)
      as H.
    rewrite Hrun in H. cbn [fst snd] in H. now apply H.
Qed.

Lemma configure_rejected_leaves_state_witness :
  epmp_entry_configure kEpmpGranularity kEpmpModeNapot epmp_state_zero 16%nat
      {| start := 16; end_ := 32 |} kEpmpPermissionsLockedMachineAllUserAll
    = (kEpmpRegionConfigureBadArg, epmp_state_zero) /\
  snd (epmp_entry_configure kEpmpGranularity kEpmpModeTor epmp_state_zero 0%nat
         {| start := 16; end_ := 32 |} kEpmpPermissionsLockedMachineAllUserAll)
    = epmp_state_zero.
Proof.
  split.
  - apply (proj1 (configure_rejected_leaves_state kEpmpGranularity
                    kEpmpModeNapot epmp_state_zero 16%nat {| start := 16; end_ := 32 |}
                    kEpmpPermissionsLockedMachineAllUserAll)).
    cbn. lia.
  - apply (proj2 (configure_rejected_leaves_state kEpmpGranularity
                    kEpmpModeTor epmp_state_zero 0%nat {| start := 16; end_ := 32 |}
                    kEpmpPermissionsLockedMachineAllUserAll)
             kEpmpRegionConfigureConflict).
    + reflexivity.
    + discriminate.
Defined.

(** *** The successful paths of the encoders *)

Lemma entry_in_range (entry : epmp_entry_t) :
  (entry < 16)%nat -> (kEpmpNumRegions <=? entry)%nat = false.
Proof. intros H. apply Nat.leb_gt. exact H. Qed.

Lemma configure_off_ok (s : epmp_state_t)
  (entry : epmp_entry_t) (region : epmp_region_t) (p : epmp_permissions_t) :
  (entry < 16)%nat -> start region = end_ region ->
  epmp_entry_configure_off s entry region p =
  (kEpmpRegionConfigureOk,
   write_entry s entry (pmpaddr_encode (start region))
     (pmpcfg_encode kEpmpModeOff p)).
Proof.
  intros He Hse. unfold epmp_entry_configure_off.
  rewrite entry_in_range by assumption.
  now rewrite (proj2 (Z.eqb_eq _ _) Hse).
Qed.

Lemma configure_tor_first (s : epmp_state_t)
  (region : epmp_region_t) (p : epmp_permissions_t) :
  epmp_entry_configure_tor s 0%nat region p =
  if start region =? 0
  then (kEpmpRegionConfigureOk,
        write_entry s 0%nat (pmpaddr_encode (end_ region))
          (pmpcfg_encode kEpmpModeTor p))
  else (kEpmpRegionConfigureConflict, s).
Proof. reflexivity. Qed.

Lemma configure_tor_after_off (s : epmp_state_t)
  (prev : nat) (region : epmp_region_t) (p : epmp_permissions_t) :
  (S prev < 16)%nat ->
  pmpcfg_mode (array_get (pmpcfg s) prev) = kEpmpModeOff ->
  epmp_entry_configure_tor s (S prev) region p =
  (kEpmpRegionConfigureOk,
   write_entry (write_addr s prev (pmpaddr_encode (start region))) (S prev)
     (pmpaddr_encode (end_ region)) (pmpcfg_encode kEpmpModeTor p)).
Proof.
  intros He Hm. unfold epmp_entry_configure_tor.
  rewrite entry_in_range by assumption. now rewrite Hm.
Qed.

Lemma configure_tor_after_tor (s : epmp_state_t)
  (prev : nat) (region : epmp_region_t) (p : epmp_permissions_t) :
  (S prev < 16)%nat ->
  pmpcfg_mode (array_get (pmpcfg s) prev) = kEpmpModeTor ->
  epmp_entry_configure_tor s (S prev) region p =
  if array_get (pmpaddr s) prev =? pmpaddr_encode (start region)
  then (kEpmpRegionConfigureOk,
        write_entry s (S prev) (pmpaddr_encode (end_ region))
          (pmpcfg_encode kEpmpModeTor p))
  else (kEpmpRegionConfigureConflict, s).
Proof.
  intros He Hm. unfold epmp_entry_configure_tor.
  rewrite entry_in_range by assumption. now rewrite Hm.
Qed.

Lemma configure_tor_after_other (s : epmp_state_t)
  (prev : nat) (region : epmp_region_t) (p : epmp_permissions_t) :
  (S prev < 16)%nat ->
  pmpcfg_mode (array_get (pmpcfg s) prev) = kEpmpModeNa4 \/
  pmpcfg_mode (array_get (pmpcfg s) prev) = kEpmpModeNapot ->
  epmp_entry_configure_tor s (S prev) region p =
  (kEpmpRegionConfigureConflict, s).
Proof.
  intros He Hm. unfold epmp_entry_configure_tor.
  rewrite entry_in_range by assumption. now destruct Hm as [-> | ->].
Qed.

(** Reading the slots of an entry that was just written. *)
Lemma write_entry_get (s : epmp_state_t) (entry : epmp_entry_t) (addr cfg : Z) :
  state_wf s -> (entry < 16)%nat ->
  array_get (pmpaddr (write_entry s entry addr cfg)) entry = addr /\
  array_get (pmpcfg (write_entry s entry addr cfg)) entry = cfg.
Proof.
  intros [Hc Ha] He. cbn [write_entry pmpaddr pmpcfg].
  split; apply array_get_set_same; unfold kEpmpNumRegions in *; lia.
Qed.

Lemma write_entry_get_other (s : epmp_state_t) (entry j : epmp_entry_t)
  (addr cfg : Z) :
  entry <> j ->
  array_get (pmpaddr (write_entry s entry addr cfg)) j = array_get (pmpaddr s) j /\
  array_get (pmpcfg (write_entry s entry addr cfg)) j = array_get (pmpcfg s) j.
Proof.
  intros Hne. cbn [write_entry pmpaddr pmpcfg].
  split; now apply array_get_set_other.
Qed.

Lemma write_addr_get (s : epmp_state_t) (entry : epmp_entry_t) (addr : Z) :
  state_wf s -> (entry < 16)%nat ->
  array_get (pmpaddr (write_addr s entry addr)) entry = addr.
Proof.
  intros [Hc Ha] He. cbn [write_addr pmpaddr].
  apply array_get_set_same; unfold kEpmpNumRegions in *; lia.
Qed.

Lemma write_addr_get_other (s : epmp_state_t) (entry j : epmp_entry_t)
  (addr : Z) :
  entry <> j ->
  array_get (pmpaddr (write_addr s entry addr)) j = array_get (pmpaddr s) j.
Proof.
  intros Hne. cbn [write_addr pmpaddr]. now apply array_get_set_other.
Qed.

Lemma write_addr_cfg (s : epmp_state_t) (entry : epmp_entry_t) (addr : Z) :
  pmpcfg (write_addr s entry addr) = pmpcfg s.
Proof. reflexivity. Qed.

(** *** The tables of the header *)

(** The example of [epmp_entry_configure_off]: entries 0 and 1 disabled at
    0x00 and 0x10, the second one locked. *)
Example header_table_off :
  let s0 := snd (epmp_entry_configure_off epmp_state_zero 0%nat
                   {| start := 0; end_ := 0 |}
                   kEpmpPermissionsUnlockedMachineAllUserNone) in
  let s1 := snd (epmp_entry_configure_off s0 1%nat
                   {| start := 0x10; end_ := 0x10 |}
                   kEpmpPermissionsLockedMachineNoneUserNone) in
  take 2 (pmpaddr s1) = [0x00; 0x04] /\
  take 2 (pmpcfg s1) = [0; EPMP_CFG_L].
Proof. split; reflexivity. Qed.

(** The example of [epmp_entry_configure_tor]: two stacked TOR regions and
    an independent one. *)
Example header_table_tor :
  let s0 := snd (epmp_entry_configure_tor epmp_state_zero 0%nat
                   {| start := 0x00; end_ := 0x10 |}
                   kEpmpPermissionsUnlockedMachineAllUserNone) in
  let s1 := snd (epmp_entry_configure_tor s0 1%nat
                   {| start := 0x10; end_ := 0x20 |}
                   kEpmpPermissionsUnlockedMachineAllUserAll) in
  let s2 := snd (epmp_entry_configure_off s1 2%nat
                   {| start := 0x00; end_ := 0x00 |}
                   kEpmpPermissionsUnlockedMachineAllUserNone) in
  let s3 := snd (epmp_entry_configure_tor s2 3%nat
                   {| start := 0x30; end_ := 0x40 |}
                   kEpmpPermissionsUnlockedMachineAllUserAll) in
  take 4 (pmpaddr s3) = [0x04; 0x08; 0x0c; 0x10] /\
  take 4 (pmpcfg s3) = [8; 15; 0; 15].
Proof. split; reflexivity. Qed.

(** The example of [epmp_entry_configure_na4]. *)
Example header_table_na4 :
  let s0 := snd (epmp_entry_configure_na4 kEpmpGranularity epmp_state_zero
                   0%nat {| start := 0x10; end_ := 0x14 |}
                   kEpmpPermissionsUnlockedMachineAllUserAll) in
  take 1 (pmpaddr s0) = [0x04] /\ take 1 (pmpcfg s0) = [23].
Proof. split; reflexivity. Qed.

(** The example of [epmp_entry_configure_napot]: sixteen bytes at 0x10
    ([(0x10 >> 2) | 0b01]) and eight bytes at 0x50
    ([(0x50 >> 2) | 0b00]). *)
Example header_table_napot :
  let s0 := snd (epmp_entry_configure_napot kEpmpGranularity epmp_state_zero
                   0%nat {| start := 0x10; end_ := 0x20 |}
                   kEpmpPermissionsUnlockedMachineAllUserAll) in
  let s1 := snd (epmp_entry_configure_napot kEpmpGranularity s0
                   1%nat {| start := 0x50; end_ := 0x58 |}
                   kEpmpPermissionsUnlockedMachineAllUserNone) in
  take 2 (pmpaddr s1) = [Z.lor (Z.shiftr 0x10 2) 1; 0x14] /\
  take 2 (pmpcfg s1) = [31; 24].
Proof. split; reflexivity. Qed.

(** Regions that the encoders turn down. *)
Example rejected_regions :
  fst (epmp_entry_configure_off epmp_state_zero 0%nat
         {| start := 0x10; end_ := 0x20 |}
         kEpmpPermissionsUnlockedMachineAllUserNone)
    = kEpmpRegionConfigureBadRegion /\
  fst (epmp_entry_configure_tor epmp_state_zero 0%nat
         {| start := 0x10; end_ := 0x20 |}
         kEpmpPermissionsUnlockedMachineAllUserNone)
    = kEpmpRegionConfigureConflict /\
  fst (epmp_entry_configure_na4 kEpmpGranularity epmp_state_zero 0%nat
         {| start := 0x10; end_ := 0x18 |}
         kEpmpPermissionsUnlockedMachineAllUserNone)
    = kEpmpRegionConfigureBadRegion /\
  fst (epmp_entry_configure_na4 1 epmp_state_zero 0%nat
         {| start := 0x10; end_ := 0x14 |}
         kEpmpPermissionsUnlockedMachineAllUserNone)
    = kEpmpRegionConfigureBadRegion /\
  fst (epmp_entry_configure_napot kEpmpGranularity epmp_state_zero 0%nat
         {| start := 0x10; end_ := 0x14 |}
         kEpmpPermissionsUnlockedMachineAllUserNone)
    = kEpmpRegionConfigureBadRegion /\
  fst (epmp_entry_configure_napot kEpmpGranularity epmp_state_zero 0%nat
         {| start := 0x08; end_ := 0x18 |}
         kEpmpPermissionsUnlockedMachineAllUserNone)
    = kEpmpRegionConfigureBadRegion /\
  fst (epmp_entry_configure_napot 2 epmp_state_zero 0%nat
         {| start := 0x08; end_ := 0x10 |}
         kEpmpPermissionsUnlockedMachineAllUserNone)
    = kEpmpRegionConfigureBadRegion.
Proof. repeat split. Qed.

(** *** Top of range entries (C4, C9) *)

(** C4: for an entry below 16, [epmp_entry_configure_tor] either succeeds
    or reports a conflict, and a conflict leaves the state as it was.  On
    success the entry's own address slot holds the shifted end address and
    its configuration byte the mode TOR with the permissions asked for; no
    other configuration byte changes.  For entry 0 it succeeds exactly when
    the start address is 0.  Otherwise, when the preceding entry is OFF it
    succeeds and the preceding address slot receives the shifted start
    address (its configuration byte, permission and lock, being kept); when
    the preceding entry is TOR it succeeds exactly when that entry's
    address slot already equals the shifted start address, and the slot is
    kept; in every other case the result is a conflict. *)
Theorem epmp_entry_configure_tor_adjacency (s : epmp_state_t)
  (entry : epmp_entry_t) (region : epmp_region_t) (p : epmp_permissions_t) :
  state_wf s -> (entry < 16)%nat ->
  let (res, s') := epmp_entry_configure_tor s entry region p in
  (res = kEpmpRegionConfigureOk \/ res = kEpmpRegionConfigureConflict) /\
  (res = kEpmpRegionConfigureConflict -> s' = s) /\
  (res = kEpmpRegionConfigureOk ->
     array_get (pmpaddr s') entry = pmpaddr_encode (end_ region) /\
     array_get (pmpcfg s') entry = pmpcfg_encode kEpmpModeTor p /\
     pmpcfg_mode (array_get (pmpcfg s') entry) = kEpmpModeTor /\
     (forall j, j <> entry ->
        array_get (pmpcfg s') j = array_get (pmpcfg s) j) /\
     (forall j, j <> entry -> S j <> entry ->
        array_get (pmpaddr s') j = array_get (pmpaddr s) j)) /\
  match entry with
  | O => res = kEpmpRegionConfigureOk <-> start region = 0
  | S prev =>
      match pmpcfg_mode (array_get (pmpcfg s) prev) with
      | kEpmpModeOff =>
          res = kEpmpRegionConfigureOk /\
          array_get (pmpaddr s') prev = pmpaddr_encode (start region)
      | kEpmpModeTor =>
          (res = kEpmpRegionConfigureOk <->
           array_get (pmpaddr s) prev = pmpaddr_encode (start region)) /\
          array_get (pmpaddr s') prev = array_get (pmpaddr s) prev
      | kEpmpModeNa4 | kEpmpModeNapot => res = kEpmpRegionConfigureConflict
      end
  end.
Proof.
  intros Hwf He.
  assert (Hwritten : forall s0 : epmp_state_t, state_wf s0 ->
    (forall j, j <> entry -> S j <> entry ->
       array_get (pmpaddr s0) j = array_get (pmpaddr s) j) ->
    pmpcfg s0 = pmpcfg s ->
    let s' := write_entry s0 entry (pmpaddr_encode (end_ region))
                (pmpcfg_encode kEpmpModeTor p) in
    array_get (pmpaddr s') entry = pmpaddr_encode (end_ region) /\
    array_get (pmpcfg s') entry = pmpcfg_encode kEpmpModeTor p /\
    pmpcfg_mode (array_get (pmpcfg s') entry) = kEpmpModeTor /\
    (forall j, j <> entry ->
       array_get (pmpcfg s') j = array_get (pmpcfg s) j) /\
    (forall j, j <> entry -> S j <> entry ->
       array_get (pmpaddr s') j = array_get (pmpaddr s) j)).
  { intros s0 Hwf0 Haddr Hcfg s'. subst s'.
    destruct (write_entry_get s0 entry (pmpaddr_encode (end_ region))
                (pmpcfg_encode kEpmpModeTor p) Hwf0 He) as [Ha Hc].
    rewrite Ha, Hc, pmpcfg_mode_encode. repeat split.
    - intros j Hj.
      rewrite (proj2 (write_entry_get_other s0 entry j _ _ (not_eq_sym Hj))).
      now rewrite Hcfg.
    - intros j Hj Hj'.
      rewrite (proj1 (write_entry_get_other s0 entry j _ _ (not_eq_sym Hj))).
      now apply Haddr. }
  destruct entry as [|prev].
  - rewrite configure_tor_first.
    destruct (start region =? 0) eqn:Hs.
    + apply Z.eqb_eq in Hs.
      split; [now left|]. split; [discriminate|].
      split; [intros _; now apply Hwritten|]. tauto.
    + apply Z.eqb_neq in Hs.
      split; [now right|]. split; [reflexivity|].
      split; [discriminate|]. split; [discriminate | contradiction].
  - destruct (pmpcfg_mode (array_get (pmpcfg s) prev)) eqn:Hm.
    + rewrite configure_tor_after_off by assumption.
      split; [now left|]. split; [discriminate|].
      split.
      * intros _. apply Hwritten.
        -- now apply write_addr_wf.
        -- intros j Hj Hj'. apply write_addr_get_other. congruence.
        -- reflexivity.
      * split; [reflexivity|].
        rewrite (proj1 (write_entry_get_other _ (S prev) prev _ _
                          (Nat.neq_succ_diag_l prev))).
        apply write_addr_get; [assumption | lia].
    + rewrite configure_tor_after_tor by assumption.
      destruct (array_get (pmpaddr s) prev =? pmpaddr_encode (start region))
        eqn:Hs.
      * apply Z.eqb_eq in Hs.
        split; [now left|]. split; [discriminate|].
        split; [intros _; now apply Hwritten|].
        split; [tauto|].
        apply write_entry_get_other. apply Nat.neq_succ_diag_l.
      * apply Z.eqb_neq in Hs.
        split; [now right|]. split; [reflexivity|].
        split; [discriminate|].
        split; [split; [discriminate | contradiction] | reflexivity].
    + rewrite configure_tor_after_other by auto.
      split; [now right|]. split; [reflexivity|]. split; [discriminate|].
      reflexivity.
    + rewrite configure_tor_after_other by auto.
      split; [now right|]. split; [reflexivity|]. split; [discriminate|].
      reflexivity.
Qed.

Lemma epmp_entry_configure_tor_adjacency_witness :
  fst (epmp_entry_configure_tor epmp_state_zero 1%nat
         {| start := 16; end_ := 32 |}
         kEpmpPermissionsUnlockedMachineAllUserAll)
    = kEpmpRegionConfigureOk \/
  fst (epmp_entry_configure_tor epmp_state_zero 1%nat
         {| start := 16; end_ := 32 |}
         kEpmpPermissionsUnlockedMachineAllUserAll)
    = kEpmpRegionConfigureConflict.
Proof.
  pose proof (epmp_entry_configure_tor_adjacency epmp_state_zero 1%nat
                {| start := 16; end_ := 32 |}
                kEpmpPermissionsUnlockedMachineAllUserAll) as H.
  destruct (epmp_entry_configure_tor _ _ _ _) as [res s'].
  apply H.
  - split; reflexivity.
  - lia.
Defined.

(** C9: the worked example of the header.  From any state, configuring
    entry 0 as TOR over [0x00, 0x10), entry 1 as TOR over [0x10, 0x20),
    entry 2 as OFF at 0 and entry 3 as TOR over [0x30, 0x40) succeeds at
    each step and leaves the address slots of entries 0 to 3 at 0x04,
    0x08, 0x0c and 0x10. *)
Theorem tor_stack_example (s : epmp_state_t)
  (permA permB permC permD : epmp_permissions_t) :
  state_wf s ->
  let (res0, s0) :=
    epmp_entry_configure_tor s 0%nat {| start := 0x00; end_ := 0x10 |} permA in
  let (res1, s1) :=
    epmp_entry_configure_tor s0 1%nat {| start := 0x10; end_ := 0x20 |} permB in
  let (res2, s2) :=
    epmp_entry_configure_off s1 2%nat {| start := 0; end_ := 0 |} permC in
  let (res3, s3) :=
    epmp_entry_configure_tor s2 3%nat {| start := 0x30; end_ := 0x40 |} permD in
  res0 = kEpmpRegionConfigureOk /\ res1 = kEpmpRegionConfigureOk /\
  res2 = kEpmpRegionConfigureOk /\ res3 = kEpmpRegionConfigureOk /\
  array_get (pmpaddr s3) 0 = 0x04 /\
  array_get (pmpaddr s3) 1 = 0x08 /\
  array_get (pmpaddr s3) 2 = 0x0c /\
  array_get (pmpaddr s3) 3 = 0x10.
Proof.
  intros Hwf.
  rewrite configure_tor_first. cbn [start end_ Z.eqb].
  set (s0 := write_entry s 0%nat _ _).
  assert (Hwf0 : state_wf s0) by now apply write_entry_wf.
  destruct (write_entry_get s 0%nat (pmpaddr_encode 16)
              (pmpcfg_encode kEpmpModeTor permA) Hwf ltac:(lia)) as [Ha0 Hc0].
  fold s0 in Ha0, Hc0.
  rewrite configure_tor_after_tor
    by (try lia; rewrite Hc0; apply pmpcfg_mode_encode).
  rewrite Ha0. cbn [start end_]. change (pmpaddr_encode 16 =? pmpaddr_encode 16) with true.
  cbn iota.
  set (s1 := write_entry s0 1%nat _ _).
  assert (Hwf1 : state_wf s1) by now apply write_entry_wf.
  rewrite configure_off_ok by (try lia; reflexivity).
  set (s2 := write_entry s1 2%nat _ _).
  assert (Hwf2 : state_wf s2) by now apply write_entry_wf.
  destruct (write_entry_get s1 2%nat (pmpaddr_encode 0)
              (pmpcfg_encode kEpmpModeOff permC) Hwf1 ltac:(lia)) as [Ha2 Hc2].
  cbn [start] in s2. fold s2 in Ha2, Hc2.
  rewrite configure_tor_after_off
    by (try lia; rewrite Hc2; apply pmpcfg_mode_encode).
  cbn [start end_].
  do 4 (split; [reflexivity|]).
  assert (Hwf2' : state_wf (write_addr s2 2%nat (pmpaddr_encode 48)))
    by now apply write_addr_wf.
  repeat split.
  - rewrite (proj1 (write_entry_get_other _ 3%nat 0%nat _ _ ltac:(lia))).
    rewrite write_addr_get_other by lia. subst s2.
    rewrite (proj1 (write_entry_get_other _ 2%nat 0%nat _ _ ltac:(lia))).
    subst s1.
    rewrite (proj1 (write_entry_get_other _ 1%nat 0%nat _ _ ltac:(lia))).
    exact Ha0.
  - rewrite (proj1 (write_entry_get_other _ 3%nat 1%nat _ _ ltac:(lia))).
    rewrite write_addr_get_other by lia. subst s2.
    rewrite (proj1 (write_entry_get_other _ 2%nat 1%nat _ _ ltac:(lia))).
    subst s1.
    now rewrite (proj1 (write_entry_get _ 1%nat _ _ Hwf0 ltac:(lia))).
  - rewrite (proj1 (write_entry_get_other _ 3%nat 2%nat _ _ ltac:(lia))).
    now rewrite write_addr_get by (try assumption; lia).
  - now rewrite (proj1 (write_entry_get _ 3%nat _ _ Hwf2' ltac:(lia))).
Qed.

Lemma tor_stack_example_witness :
  let s3 :=
    snd (epmp_entry_configure_tor
           (snd (epmp_entry_configure_off
                   (snd (epmp_entry_configure_tor
                           (snd (epmp_entry_configure_tor epmp_state_zero 0%nat
                                   {| start := 0x00; end_ := 0x10 |}
                                   kEpmpPermissionsUnlockedMachineAllUserNone))
                           1%nat {| start := 0x10; end_ := 0x20 |}
                           kEpmpPermissionsUnlockedMachineAllUserAll))
                   2%nat {| start := 0; end_ := 0 |}
                   kEpmpPermissionsUnlockedMachineAllUserNone))
           3%nat {| start := 0x30; end_ := 0x40 |}
           kEpmpPermissionsUnlockedMachineAllUserAll) in
  array_get (pmpaddr s3) 0 = 0x04 /\
  array_get (pmpaddr s3) 1 = 0x08 /\
  array_get (pmpaddr s3) 2 = 0x0c /\
  array_get (pmpaddr s3) 3 = 0x10.
Proof.
  pose proof (tor_stack_example epmp_state_zero
                kEpmpPermissionsUnlockedMachineAllUserNone
                kEpmpPermissionsUnlockedMachineAllUserAll
                kEpmpPermissionsUnlockedMachineAllUserNone
                kEpmpPermissionsUnlockedMachineAllUserAll
                (conj eq_refl eq_refl)) as H.
  cbv zeta.
  destruct (epmp_entry_configure_tor epmp_state_zero 0%nat _ _) as [res0 s0].
  cbn [snd].
  destruct (epmp_entry_configure_tor s0 1%nat _ _) as [res1 s1].
  cbn [snd].
  destruct (epmp_entry_configure_off s1 2%nat _ _) as [res2 s2].
  cbn [snd].
  destruct (epmp_entry_configure_tor s2 3%nat _ _) as [res3 s3].
  cbn [snd].
  apply H.
Defined.

(** *** Powers of two, alignment and runs of one-bits *)

Lemma pow2_minus_one (k : Z) : 2 ^ k - 1 = Z.ones k.
Proof. rewrite Z.ones_equiv. lia. Qed.

Lemma is_power_of_two_pow2 (k : Z) : 0 <= k -> is_power_of_two (2 ^ k) = true.
Proof.
  intros Hk. unfold is_power_of_two.
  assert (Hpos : 0 < 2 ^ k) by (apply Z.pow_pos_nonneg; lia).
  apply andb_true_iff. split; [now apply Z.ltb_lt|].
  apply Z.eqb_eq. rewrite pow2_minus_one, Z.land_ones by assumption.
  apply Z_mod_same_full.
Qed.

Lemma is_power_of_two_log2 (v : Z) :
  is_power_of_two v = true -> 0 < v /\ v = 2 ^ Z.log2 v.
Proof.
  unfold is_power_of_two. intros H.
  apply andb_true_iff in H as [Hpos Hland].
  apply Z.ltb_lt in Hpos. apply Z.eqb_eq in Hland.
  split; [assumption|].
  destruct (Z.log2_spec v Hpos) as [Hlo Hhi].
  destruct (Z.eq_dec v (2 ^ Z.log2 v)) as [|Hne]; [assumption|].
  exfalso.
  assert (Hb1 : Z.testbit v (Z.log2 v) = true) by now apply Z.bit_log2.
  assert (Hl : Z.log2 (v - 1) = Z.log2 v).
  { apply Z.log2_unique; [apply Z.log2_nonneg | lia]. }
  assert (Hb2 : Z.testbit (v - 1) (Z.log2 v) = true).
  { rewrite <- Hl. apply Z.bit_log2.
    assert (0 < 2 ^ Z.log2 v) by (apply Z.pow_pos_nonneg; [lia | apply Z.log2_nonneg]).
    lia. }
  assert (Hb : Z.testbit (Z.land v (v - 1)) (Z.log2 v) = true)
    by now rewrite Z.land_spec, Hb1, Hb2.
  rewrite Hland, Z.testbit_0_l in Hb. discriminate.
Qed.

Lemma is_power_of_two_iff (v : Z) :
  is_power_of_two v = true <-> exists k, 0 <= k /\ v = 2 ^ k.
Proof.
  split.
  - intros H. exists (Z.log2 v). split; [apply Z.log2_nonneg|].
    now apply is_power_of_two_log2.
  - intros (k & Hk & ->). now apply is_power_of_two_pow2.
Qed.

Lemma is_aligned_pow2 (addr k : Z) :
  0 <= k -> is_aligned addr (2 ^ k) = true <-> addr mod 2 ^ k = 0.
Proof.
  intros Hk. unfold is_aligned.
  rewrite pow2_minus_one, Z.land_ones by assumption. apply Z.eqb_eq.
Qed.

Lemma napot_ones_mask_pow2 (k : Z) :
  3 <= k -> napot_ones_mask (2 ^ k) = Z.ones (k - 3).
Proof.
  intros Hk. unfold napot_ones_mask.
  rewrite Z.shiftr_div_pow2, pow2_minus_one by lia.
  apply Z.ones_div_pow2. lia.
Qed.

Lemma trailing_ones_spec (w : nat) (v t : Z) :
  0 <= t < Z.of_nat w ->
  (forall i, 0 <= i < t -> Z.testbit v i = true) ->
  Z.testbit v t = false ->
  trailing_ones w v = t.
Proof.
  revert v t. induction w as [|w IH]; intros v t Ht Hlow Hhigh; [lia|].
  cbn [trailing_ones]. rewrite <- Z.bit0_odd.
  destruct (Z.eq_dec t 0) as [->|Hne].
  - now rewrite Hhigh.
  - rewrite Hlow by lia. rewrite (IH (Z.shiftr v 1) (t - 1)).
    + lia.
    + lia.
    + intros i Hi. rewrite Z.shiftr_spec by lia. apply Hlow. lia.
    + rewrite Z.shiftr_spec by lia. now replace (t - 1 + 1) with t by lia.
Qed.

Section NapotWord.

(** A NAPOT address word: a base whose low [t + 1] bits are clear, with a
    run of [t] one-bits below it. *)
Variables base t : Z.
Hypothesis t_nonneg : 0 <= t.
Hypothesis base_low_clear : base mod 2 ^ (t + 1) = 0.

Lemma base_bit_clear (i : Z) : i <= t -> Z.testbit base i = false.
Proof.
  intros Hi. rewrite <- (Z.mod_pow2_bits_low base (t + 1) i) by lia.
  rewrite base_low_clear. apply Z.testbit_0_l.
Qed.

Lemma napot_word_trailing_ones (w : nat) :
  t < Z.of_nat w -> trailing_ones w (Z.lor base (Z.ones t)) = t.
Proof.
  intros Hw. apply trailing_ones_spec; [lia | |].
  - intros i Hi. rewrite Z.lor_spec, Z.ones_spec_low by lia.
    apply orb_true_r.
  - rewrite Z.lor_spec, Z.ones_spec_high, base_bit_clear by lia.
    reflexivity.
Qed.

Lemma napot_word_base : Z.ldiff (Z.lor base (Z.ones t)) (Z.ones t) = base.
Proof.
  apply Z.bits_inj'. intros i Hi.
  rewrite Z.ldiff_spec, Z.lor_spec.
  destruct (Z.lt_ge_cases i t) as [Hlt|Hge].
  - rewrite Z.ones_spec_low, base_bit_clear by lia. reflexivity.
  - rewrite Z.ones_spec_high by lia. cbn. now rewrite orb_false_r, andb_true_r.
Qed.

End NapotWord.

Lemma aligned_start_shifted (addr k : Z) :
  3 <= k -> addr mod 2 ^ k = 0 ->
  addr mod 4 = 0 /\ pmpaddr_encode addr mod 2 ^ (k - 3 + 1) = 0.
Proof.
  intros Hk Hal.
  assert (Hpow : 2 ^ k = 2 ^ (k - 2) * 4).
  { replace k with ((k - 2) + 2) at 1 by lia.
    rewrite Z.pow_add_r by lia. reflexivity. }
  assert (Hq : addr = (addr / 2 ^ k * 2 ^ (k - 2)) * 4).
  { pose proof (Z.div_mod addr (2 ^ k)) as Hdm.
    assert (0 < 2 ^ k) by (apply Z.pow_pos_nonneg; lia).
    rewrite Hal in Hdm. rewrite Hpow in Hdm at 1. lia. }
  split.
  - rewrite Hq. apply Z.mod_mul. lia.
  - rewrite pmpaddr_encode_div, Hq, Z.div_mul by lia.
    replace (k - 3 + 1) with (k - 2) by lia.
    apply Z.mod_mul.
    assert (0 < 2 ^ (k - 2)) by (apply Z.pow_pos_nonneg; lia). lia.
Qed.

(** *** Decoding an entry that was just written *)

Lemma decode_written (s0 : epmp_state_t) (entry : epmp_entry_t) (addr : Z)
  (a : epmp_address_mode_t) (p : epmp_permissions_t) :
  state_wf s0 -> (entry < 16)%nat ->
  epmp_entry_decode (write_entry s0 entry addr (pmpcfg_encode a p)) entry =
  (kEpmpOk,
   Some
     (match a with
      | kEpmpModeOff =>
          {| start := pmpaddr_decode addr; end_ := pmpaddr_decode addr |}
      | kEpmpModeTor =>
          {| start := match entry with
                      | O => 0
                      | S prev => pmpaddr_decode (array_get (pmpaddr s0) prev)
                      end;
             end_ := pmpaddr_decode addr |}
      | kEpmpModeNa4 =>
          {| start := pmpaddr_decode addr;
             end_ := to_uint32 (pmpaddr_decode addr + 4) |}
      | kEpmpModeNapot =>
          {| start :=
               pmpaddr_decode
                 (Z.ldiff addr (Z.ones (trailing_ones 32 addr)));
             end_ :=
               to_uint32
                 (pmpaddr_decode
                    (Z.ldiff addr (Z.ones (trailing_ones 32 addr)))
                  + 2 ^ (trailing_ones 32 addr + 3)) |}
      end, p)).
Proof.
  intros Hwf He. unfold epmp_entry_decode.
  rewrite entry_in_range by assumption.
  destruct (write_entry_get s0 entry addr (pmpcfg_encode a p) Hwf He)
    as [Ha Hc].
  rewrite Ha, Hc, pmpcfg_permissions_encode, pmpcfg_mode_encode.
  destruct a; try reflexivity.
  destruct entry as [|prev]; [reflexivity|].
  now rewrite (proj1 (write_entry_get_other s0 (S prev) prev _ _
                        (Nat.neq_succ_diag_l prev))).
Qed.

Lemma to_uint32_add_diff (a b : Z) :
  0 <= b < UINT32_MOD -> to_uint32 (a + to_uint32 (b - a)) = b.
Proof.
  intros Hb. unfold to_uint32.
  rewrite Z.add_mod_idemp_r by (unfold UINT32_MOD; lia).
  replace (a + (b - a)) with b by lia. now apply Z.mod_small.
Qed.

(** *** NAPOT entries *)

Lemma configure_napot_run (granularity : Z) (s : epmp_state_t)
  (entry : epmp_entry_t) (region : epmp_region_t) (p : epmp_permissions_t) :
  (entry < 16)%nat ->
  let size := to_uint32 (end_ region - start region) in
  epmp_entry_configure_napot granularity s entry region p =
  if is_power_of_two size && (8 <=? size)
     && is_aligned (start region) size && is_aligned (end_ region) size
     && (negb (0 <? granularity)
         || (is_aligned (start region) (2 ^ (2 + granularity))
             && is_aligned (end_ region) (2 ^ (2 + granularity))))
  then (kEpmpRegionConfigureOk,
        write_entry s entry
          (Z.lor (pmpaddr_encode (start region)) (napot_ones_mask size))
          (pmpcfg_encode kEpmpModeNapot p))
  else (kEpmpRegionConfigureBadRegion, s).
Proof.
  intros He size. unfold epmp_entry_configure_napot.
  rewrite entry_in_range by assumption. fold size.
  rewrite (Z.leb_antisym size 8).
  destruct (is_power_of_two size), (size <? 8),
    (is_aligned (start region) size), (is_aligned (end_ region) size),
    (0 <? granularity),
    (is_aligned (start region) (2 ^ (2 + granularity))),
    (is_aligned (end_ region) (2 ^ (2 + granularity))); reflexivity.
Qed.

(** What the guard of [epmp_entry_configure_napot] says about a region. *)
Lemma napot_guard_iff (granularity : Z) (region : epmp_region_t) :
  let size := to_uint32 (end_ region - start region) in
  is_power_of_two size && (8 <=? size)
    && is_aligned (start region) size && is_aligned (end_ region) size
    && (negb (0 <? granularity)
        || (is_aligned (start region) (2 ^ (2 + granularity))
            && is_aligned (end_ region) (2 ^ (2 + granularity)))) = true
  <->
  (exists k, 3 <= k /\ size = 2 ^ k) /\
  start region mod size = 0 /\ end_ region mod size = 0 /\
  (0 < granularity ->
   start region mod 2 ^ (2 + granularity) = 0 /\
   end_ region mod 2 ^ (2 + granularity) = 0).
Proof.
  intros size. rewrite !andb_true_iff, orb_true_iff, andb_true_iff.
  rewrite negb_true_iff, Z.ltb_ge, Z.leb_le.
  split.
  - intros ((((Hp & H8) & Hs) & He) & Hg).
    destruct (is_power_of_two_log2 size Hp) as [Hpos Hk].
    assert (Hk3 : 3 <= Z.log2 size).
    { change 3 with (Z.log2 8). now apply Z.log2_le_mono. }
    rewrite Hk in Hs, He.
    apply is_aligned_pow2 in Hs; [|lia]. apply is_aligned_pow2 in He; [|lia].
    rewrite <- Hk in Hs, He.
    split; [exists (Z.log2 size); now split|].
    split; [assumption|]. split; [assumption|].
    intros Hgr. destruct Hg as [Hg | [Hgs Hge]]; [lia|].
    split; apply is_aligned_pow2; (lia || assumption).
  - intros ((k & Hk3 & Hk) & Hs & He & Hg).
    assert (H8 : 8 <= size).
    { rewrite Hk. change 8 with (2 ^ 3). apply Z.pow_le_mono_r; lia. }
    split; [split; [split; [split|]|]|].
    + rewrite Hk. apply is_power_of_two_pow2. lia.
    + exact H8.
    + rewrite Hk in Hs |- *. apply is_aligned_pow2; [lia | assumption].
    + rewrite Hk in He |- *. apply is_aligned_pow2; [lia | assumption].
    + destruct (Z.lt_ge_cases 0 granularity) as [Hgr | Hgr]; [right | now left].
      destruct (Hg Hgr) as [Hgs Hge].
      split; apply is_aligned_pow2; (lia || assumption).
Qed.

(** The address word of a NAPOT entry and what the decoder makes of it. *)
Lemma napot_encoding (region : epmp_region_t) (k : Z) :
  region_in_range region ->
  3 <= k ->
  to_uint32 (end_ region - start region) = 2 ^ k ->
  start region mod 2 ^ k = 0 ->
  let addr := Z.lor (pmpaddr_encode (start region))
                (napot_ones_mask (2 ^ k)) in
  k < 32 /\
  addr = Z.lor (Z.shiftr (start region) 2) (Z.ones (k - 3)) /\
  trailing_ones 32 addr = k - 3 /\
  pmpaddr_decode (Z.ldiff addr (Z.ones (trailing_ones 32 addr)))
    = start region /\
  to_uint32 (start region + 2 ^ (trailing_ones 32 addr + 3)) = end_ region.
Proof.
  intros [Hrs Hre] Hk Hsize Hal addr.
  assert (Hk32 : k < 32).
  { destruct (Z.lt_ge_cases k 32) as [|Hge]; [assumption|exfalso].
    assert (2 ^ 32 <= 2 ^ k) by (apply Z.pow_le_mono_r; lia).
    assert (to_uint32 (end_ region - start region) < 2 ^ 32).
    { unfold to_uint32, UINT32_MOD. apply Z.mod_pos_bound. lia. }
    lia. }
  destruct (aligned_start_shifted (start region) k Hk Hal) as [Hal4 Hlow].
  assert (Haddr : addr = Z.lor (pmpaddr_encode (start region)) (Z.ones (k - 3)))
    by (subst addr; now rewrite napot_ones_mask_pow2).
  assert (Hones : trailing_ones 32 addr = k - 3).
  { rewrite Haddr. apply napot_word_trailing_ones; [lia | assumption | lia]. }
  split; [assumption|]. split; [exact Haddr|]. split; [exact Hones|].
  rewrite Hones. split.
  - rewrite Haddr, napot_word_base by (lia || assumption).
    now apply pmpaddr_decode_encode.
  - replace (k - 3 + 3) with k by lia. rewrite <- Hsize.
    now apply to_uint32_add_diff.
Qed.

(** C7: for a region of [uintptr_t] addresses with [start <= end],
    [epmp_entry_configure_napot] on an entry below 16 succeeds exactly when
    the span [end - start] is a power of two of at least 8, start and end
    are both multiples of the span and, for a granularity above 0, of
    [2 ^ (2 + granularity)] as well; otherwise it returns [BadRegion].  On
    success, with [k = log2 span], the address slot is
    [(start >> 2) | ones] with [k - 3] one-bits, the slot has exactly
    [k - 3] trailing one-bits, and decoding the entry gives back [start]
    and [end = start + span]. *)
Theorem epmp_entry_configure_napot_law (granularity : Z) (s : epmp_state_t)
  (entry : epmp_entry_t) (region : epmp_region_t) (p : epmp_permissions_t) :
  state_wf s -> (entry < 16)%nat ->
  region_in_range region -> start region <= end_ region ->
  let span := end_ region - start region in
  let (res, s') := epmp_entry_configure_napot granularity s entry region p in
  (res = kEpmpRegionConfigureOk \/ res = kEpmpRegionConfigureBadRegion) /\
  (res = kEpmpRegionConfigureOk <->
   (exists k, 3 <= k /\ span = 2 ^ k) /\
   start region mod span = 0 /\ end_ region mod span = 0 /\
   (0 < granularity ->
    start region mod 2 ^ (2 + granularity) = 0 /\
    end_ region mod 2 ^ (2 + granularity) = 0)) /\
  (res = kEpmpRegionConfigureOk ->
   let k := Z.log2 span in
   3 <= k /\ span = 2 ^ k /\
   array_get (pmpaddr s') entry =
     Z.lor (Z.shiftr (start region) 2) (Z.ones (k - 3)) /\
   trailing_ones 32 (array_get (pmpaddr s') entry) = k - 3 /\
   epmp_entry_decode s' entry =
     (kEpmpOk,
      Some ({| start := start region; end_ := start region + span |}, p))).
Proof.
  intros Hwf He Hr Hle span.
  assert (Hspan : to_uint32 (end_ region - start region) = span).
  { apply to_uint32_small. destruct Hr. subst span. lia. }
  pose proof (napot_guard_iff granularity region) as Hguard.
  cbv zeta in Hguard. rewrite Hspan in Hguard.
  rewrite configure_napot_run by assumption. cbv zeta. rewrite Hspan.
  destruct (is_power_of_two span && _ && _ && _ && _) eqn:Hg.
  - split; [now left|]. split; [tauto|]. intros _.
    destruct (proj1 Hguard eq_refl) as ((k' & Hk3 & Hk) & Hs & _).
    set (k := Z.log2 span).
    assert (k = k') as <- by (subst k; rewrite Hk; apply Z.log2_pow2; lia).
    rewrite Hk in Hs.
    assert (Hsize : to_uint32 (end_ region - start region) = 2 ^ k)
      by now rewrite Hspan.
    destruct (napot_encoding region k Hr Hk3 Hsize Hs)
      as (Hk32 & Haddr & Hones & Hstart & Hend).
    destruct (write_entry_get s entry
                (Z.lor (pmpaddr_encode (start region)) (napot_ones_mask span))
                (pmpcfg_encode kEpmpModeNapot p) Hwf He) as [Ha _].
    rewrite Ha, decode_written by assumption.
    rewrite <- Hk in Haddr, Hones, Hstart, Hend.
    rewrite Hstart, Hend.
    split; [assumption|]. split; [assumption|].
    split; [exact Haddr|]. split; [exact Hones|].
    replace (start region + span) with (end_ region) by (subst span; lia).
    reflexivity.
  - split; [now right|]. split; [|discriminate].
    split; [discriminate|]. intros H. apply Hguard in H. discriminate.
Qed.

Lemma epmp_entry_configure_napot_law_witness :
  epmp_entry_configure_napot kEpmpGranularity epmp_state_zero 0%nat
    {| start := 0x10; end_ := 0x20 |}
    kEpmpPermissionsUnlockedMachineAllUserAll
  = (kEpmpRegionConfigureOk,
     write_entry epmp_state_zero 0%nat 5 31) /\
  epmp_entry_decode (write_entry epmp_state_zero 0%nat 5 31) 0%nat =
  (kEpmpOk,
   Some ({| start := 0x10; end_ := 0x20 |},
         kEpmpPermissionsUnlockedMachineAllUserAll)).
Proof.
  pose proof (epmp_entry_configure_napot_law kEpmpGranularity epmp_state_zero
                0%nat {| start := 0x10; end_ := 0x20 |}
                kEpmpPermissionsUnlockedMachineAllUserAll
                (conj eq_refl eq_refl) ltac:(lia)
                ltac:(unfold region_in_range, UINT32_MOD; cbn [start end_]; lia)
                ltac:(cbn [start end_]; lia)) as H.
  cbv zeta in H.
  change (epmp_entry_configure_napot kEpmpGranularity epmp_state_zero 0%nat
            {| start := 0x10; end_ := 0x20 |}
            kEpmpPermissionsUnlockedMachineAllUserAll)
    with (kEpmpRegionConfigureOk, write_entry epmp_state_zero 0%nat 5 31) in H |- *.
  split; [reflexivity|].
  destruct H as (_ & _ & H). destruct (H eq_refl) as (_ & _ & _ & _ & Hd).
  exact Hd.
Defined.

(** *** Round trip (C5) *)

(** C5: for each of the four addressing modes, when configuring an entry
    succeeds for a region of word-aligned [uintptr_t] addresses (success
    implies that the entry is below 16 and that the region meets the
    mode's own conditions), decoding that entry of the resulting state
    returns exactly the region and the permissions that were given. *)
Theorem configure_decode_roundtrip (granularity : Z) (a : epmp_address_mode_t)
  (s s' : epmp_state_t) (entry : epmp_entry_t) (region : epmp_region_t)
  (p : epmp_permissions_t) :
  state_wf s -> region_in_range region -> region_word_aligned region ->
  epmp_entry_configure granularity a s entry region p
    = (kEpmpRegionConfigureOk, s') ->
  (entry < 16)%nat /\
  epmp_entry_decode s' entry = (kEpmpOk, Some (region, p)).
Proof.
  intros Hwf Hr [Hals Hale] Hrun.
  assert (He : (entry < 16)%nat).
  { destruct (Nat.lt_ge_cases entry 16) as [|Hge]; [assumption|].
    rewrite configure_bad_entry in Hrun by exact Hge. discriminate. }
  split; [assumption|].
  destruct Hr as [Hrs Hre]. destruct region as [rs re].
  cbn [start end_] in *.
  destruct a; cbn [epmp_entry_configure] in Hrun.
  - (* OFF *)
    unfold epmp_entry_configure_off in Hrun.
    rewrite entry_in_range in Hrun by assumption. cbn [start end_] in Hrun.
    destruct (rs =? re) eqn:Hse; cbn [negb] in Hrun; [|discriminate].
    apply Z.eqb_eq in Hse. subst re.
    injection Hrun as <-.
    rewrite decode_written by assumption.
    now rewrite pmpaddr_decode_encode.
  - (* TOR *)
    destruct entry as [|prev].
    + rewrite configure_tor_first in Hrun. cbn [start end_] in Hrun.
      destruct (rs =? 0) eqn:Hs; [|discriminate].
      apply Z.eqb_eq in Hs. subst rs. injection Hrun as <-.
      rewrite decode_written by assumption.
      now rewrite pmpaddr_decode_encode.
    + destruct (pmpcfg_mode (array_get (pmpcfg s) prev)) eqn:Hm.
      * rewrite configure_tor_after_off in Hrun by assumption.
        cbn [start end_] in Hrun. injection Hrun as <-.
        rewrite decode_written by (try apply write_addr_wf; assumption).
        rewrite write_addr_get by (try assumption; lia).
        now rewrite !pmpaddr_decode_encode.
      * rewrite configure_tor_after_tor in Hrun by assumption.
        cbn [start end_] in Hrun.
        destruct (array_get (pmpaddr s) prev =? pmpaddr_encode rs) eqn:Hs;
          [|discriminate].
        apply Z.eqb_eq in Hs. injection Hrun as <-.
        rewrite decode_written by assumption.
        rewrite Hs. now rewrite !pmpaddr_decode_encode.
      * rewrite configure_tor_after_other in Hrun by auto. discriminate.
      * rewrite configure_tor_after_other in Hrun by auto. discriminate.
  - (* NA4 *)
    unfold epmp_entry_configure_na4 in Hrun.
    rewrite entry_in_range in Hrun by assumption. cbn [start end_] in Hrun.
    destruct (granularity =? 0); cbn [negb orb] in Hrun; [|discriminate].
    destruct (to_uint32 (re - rs) =? 4) eqn:Hlen; cbn [negb] in Hrun;
      [|discriminate].
    apply Z.eqb_eq in Hlen. injection Hrun as <-.
    rewrite decode_written by assumption.
    rewrite pmpaddr_decode_encode by assumption.
    rewrite <- Hlen. now rewrite to_uint32_add_diff.
  - (* NAPOT *)
    rewrite configure_napot_run in Hrun by assumption.
    cbv zeta in Hrun. cbn [start end_] in Hrun.
    pose proof (napot_guard_iff granularity {| start := rs; end_ := re |})
      as Hguard.
    cbv zeta in Hguard. cbn [start end_] in Hguard.
    destruct (is_power_of_two _ && _ && _ && _ && _) eqn:Hg; [|discriminate].
    injection Hrun as <-.
    destruct (proj1 Hguard eq_refl) as ((k & Hk3 & Hk) & Hs & _).
    rewrite Hk in Hs.
    destruct (napot_encoding {| start := rs; end_ := re |} k
                (conj Hrs Hre) Hk3 Hk Hs)
      as (_ & _ & _ & Hstart & Hend).
    cbn [start end_] in Hstart, Hend.
    rewrite decode_written by assumption.
    rewrite Hk. rewrite Hstart, Hend. reflexivity.
Qed.

Lemma configure_decode_roundtrip_witness :
  epmp_entry_decode
    (write_entry epmp_state_zero 1%nat 4 128) 1%nat =
  (kEpmpOk,
   Some ({| start := 0x10; end_ := 0x10 |},
         kEpmpPermissionsLockedMachineNoneUserNone)) /\
  epmp_entry_decode
    (write_entry (write_addr epmp_state_zero 2%nat 12) 3%nat 16 15) 3%nat =
  (kEpmpOk,
   Some ({| start := 0x30; end_ := 0x40 |},
         kEpmpPermissionsUnlockedMachineAllUserAll)) /\
  epmp_entry_decode
    (write_entry epmp_state_zero 0%nat 4 23) 0%nat =
  (kEpmpOk,
   Some ({| start := 0x10; end_ := 0x14 |},
         kEpmpPermissionsUnlockedMachineAllUserAll)) /\
  epmp_entry_decode
    (write_entry epmp_state_zero 15%nat 5 31) 15%nat =
  (kEpmpOk,
   Some ({| start := 0x10; end_ := 0x20 |},
         kEpmpPermissionsUnlockedMachineAllUserAll)).
Proof.
  assert (Hwf : state_wf epmp_state_zero) by (split; reflexivity).
  assert (Hrange : forall a b, 0 <= a < 2 ^ 32 -> 0 <= b < 2 ^ 32 ->
                               region_in_range {| start := a; end_ := b |})
    by (intros a b Ha Hb; split; assumption).
  split; [|split; [|split]].
  - apply (configure_decode_roundtrip kEpmpGranularity kEpmpModeOff
             epmp_state_zero);
      [exact Hwf | apply Hrange; lia | split; reflexivity | reflexivity].
  - apply (configure_decode_roundtrip kEpmpGranularity kEpmpModeTor
             epmp_state_zero);
      [exact Hwf | apply Hrange; lia | split; reflexivity | reflexivity].
  - apply (configure_decode_roundtrip kEpmpGranularity kEpmpModeNa4
             epmp_state_zero);
      [exact Hwf | apply Hrange; lia | split; reflexivity | reflexivity].
  - apply (configure_decode_roundtrip kEpmpGranularity kEpmpModeNapot
             epmp_state_zero);
      [exact Hwf | apply Hrange; lia | split; reflexivity | reflexivity].
Defined.

End CodecProofs.

(** ** Properties of the retention SRAM driver and of its test *)

Module RetentionSramProofs.

Import RetentionSram.

(** *** Single bits of a word *)

Lemma bitfield_bit32_read_testbit (bitfield bit_index : Z) :
  0 <= bit_index ->
  bitfield_bit32_read bitfield bit_index = Z.testbit bitfield bit_index.
Proof.
  intros Hi. unfold bitfield_bit32_read.
  change 1 with (Z.ones 1) at 1.
  rewrite Z.land_ones by lia. change (2 ^ 1) with 2.
  rewrite <- Z.bit0_eqb, Z.shiftr_spec by lia.
  reflexivity.
Qed.

Lemma bitfield_bit32_write_bits (bitfield bit_index : Z) (value : bool) (n : Z) :
  0 <= bit_index -> 0 <= n ->
  Z.testbit (bitfield_bit32_write bitfield bit_index value) n =
  (n <? 32) && (if n =? bit_index then value else Z.testbit bitfield n).
Proof.
  intros Hi Hn. unfold bitfield_bit32_write, to_uint32, UINT32_MOD.
  rewrite Z.testbit_mod_pow2 by lia. f_equal.
  rewrite Z.lor_spec, Z.land_spec, Z.lnot_spec, Z.shiftl_1_l by lia.
  rewrite Z.pow2_bits_eqb by lia.
  rewrite Z.shiftl_spec by lia.
  destruct (Z.eqb_spec n bit_index) as [->|Hne].
  - rewrite Z.eqb_refl, Z.sub_diag. cbn [negb].
    rewrite andb_false_r. cbn [orb]. destruct value; reflexivity.
  - rewrite (proj2 (Z.eqb_neq bit_index n)) by lia. cbn [negb].
    rewrite andb_true_r.
    replace (Z.testbit (Z.b2z value) (n - bit_index)) with false.
    + apply orb_false_r.
    + symmetry. destruct (Z.lt_ge_cases (n - bit_index) 0) as [Hlt|Hge].
      * now apply Z.testbit_neg_r.
      * destruct value; cbn [Z.b2z]; [|apply Z.testbit_0_l].
        change 1 with (2 ^ 0). apply Z.pow2_bits_false. lia.
Qed.

(** The word that [retention_sram_scramble] builds has the two request bits
    set and no other. *)
Lemma scramble_word (renew init : Z) :
  0 <= renew < 32 -> 0 <= init < 32 ->
  bitfield_bit32_write (bitfield_bit32_write 0 renew true) init true
  = Z.lor (2 ^ renew) (2 ^ init).
Proof.
  intros Hr Hi. apply Z.bits_inj'. intros n Hn.
  rewrite !bitfield_bit32_write_bits by lia.
  rewrite Z.lor_spec, !Z.pow2_bits_eqb, Z.testbit_0_l by lia.
  rewrite (Z.eqb_sym renew n), (Z.eqb_sym init n).
  destruct (Z.eqb_spec n init), (Z.eqb_spec n renew), (Z.ltb_spec n 32);
    cbn; try reflexivity; lia.
Qed.

Lemma scramble_request_range (renew init : Z) :
  0 <= renew < 32 -> 0 <= init < 32 ->
  to_uint32 (scramble_request renew init) = scramble_request renew init.
Proof.
  intros Hr Hi. unfold scramble_request.
  rewrite <- (scramble_word renew init) by assumption.
  unfold bitfield_bit32_write at 1. unfold to_uint32.
  apply Z.mod_mod. unfold UINT32_MOD. lia.
Qed.

(** *** Loops *)

Lemma lookup_repeat_zero (n i : nat) :
  repeat 0 n !! i = if decide (i < n)%nat then Some 0 else None.
Proof.
  revert i. induction n as [|n IH]; intros i; cbn [repeat].
  - now destruct i.
  - destruct i as [|i]; [reflexivity|]. cbn. rewrite IH.
    destruct (decide (i < n)%nat), (decide (S i < S n)%nat);
      (reflexivity || lia).
Qed.

Lemma zero_fill_lookup (n a : nat) (l : list Z) (j : nat) :
  fold_left (fun r i => array_set r i 0) (seq a n) l !! j =
  if decide ((a <= j < a + n)%nat /\ (j < length l)%nat) then Some 0
  else l !! j.
Proof.
  revert a l. induction n as [|n IH]; intros a l; cbn [seq fold_left].
  - destruct (decide _) as [[? _]|]; [lia | reflexivity].
  - rewrite IH, CodecProofs.array_set_length.
    destruct (decide ((S a <= j < S a + n)%nat /\ (j < length l)%nat))
      as [[H1 H2]|Hn].
    + destruct (decide _) as [|Hn']; [reflexivity | lia].
    + unfold array_set. destruct (decide (a = j)) as [->|Hne].
      * destruct (decide (j < length l)%nat) as [Hlt|Hge].
        -- rewrite list_lookup_insert_eq by assumption.
           destruct (decide _) as [|Hn']; [reflexivity | lia].
        -- rewrite list_insert_ge by lia.
           destruct (decide _) as [[_ ?]|]; [lia | reflexivity].
      * rewrite list_lookup_insert_ne by assumption.
        destruct (decide _) as [[? ?]|]; [lia | reflexivity].
Qed.

Lemma zero_fill_all (l : list Z) :
  fold_left (fun r i => array_set r i 0) (seq 0 (length l)) l
  = repeat 0 (length l).
Proof.
  apply list_eq. intros j.
  rewrite zero_fill_lookup, lookup_repeat_zero.
  destruct (decide (j < length l)%nat) as [Hlt|Hge].
  - destruct (decide _) as [|Hn]; [reflexivity | lia].
  - destruct (decide _) as [[_ ?]|]; [lia|].
    apply lookup_ge_None. lia.
Qed.

(** The first loop of [retention_sram_test] on its own. *)
Lemma zero_loop_run (xs : list nat) (m : machine) :
  for_each xs (fun i => ram_store i 0) m =
  (tt, {| mmio := mmio m;
          ret_ram := fold_left (fun r i => array_set r i 0) xs (ret_ram m);
          trace := trace m |}).
Proof.
  revert m. induction xs as [|x xs IH]; intros m; cbn [for_each fold_left].
  - now destruct m.
  - unfold bind, ram_store. rewrite IH. reflexivity.
Qed.

Lemma to_uint32_idem (z : Z) : to_uint32 (to_uint32 z) = to_uint32 z.
Proof. unfold to_uint32. apply Z.mod_mod. unfold UINT32_MOD. lia. Qed.

(** The second loop on its own: it leaves the machine as it is but for
    one line of the log per zero word, and counts these words modulo
    [2 ^ 32]. *)
Lemma check_loop_run (ram_base : Z) (xs : list nat) (acc : Z) (m : machine) :
  for_fold xs (check_word ram_base) (to_uint32 acc) m =
  (to_uint32
     (acc + Z.of_nat
              (length (filter (fun i => array_get (ret_ram m) i = 0) xs))),
   {| mmio := mmio m; ret_ram := ret_ram m;
      trace := trace m ++
        map (fun i =>
               LogError "Retention SRAM potentially unscrambled at %p."
                 [ret_ram_addr ram_base i])
            (filter (fun i => array_get (ret_ram m) i = 0) xs) |}).
Proof.
  revert acc m. induction xs as [|x xs IH]; intros acc m.
  - cbn. rewrite Z.add_0_r, app_nil_r. now destruct m.
  - cbn [for_fold]. unfold bind at 1. unfold check_word at 1.
    unfold bind at 1. unfold ram_load at 1.
    rewrite filter_cons.
    destruct (decide (array_get (ret_ram m) x = 0)) as [Hz|Hnz].
    + rewrite Hz. cbn [Z.eqb]. unfold bind at 1.
      unfold LOG_ERROR, emit, ret at 1.
      assert (Hacc : to_uint32 (to_uint32 acc + 1) = to_uint32 (acc + 1)).
      { unfold to_uint32. apply Z.add_mod_idemp_l. unfold UINT32_MOD. lia. }
      rewrite Hacc, IH. cbn [mmio ret_ram trace length map].
      f_equal; [f_equal; lia|]. f_equal. now rewrite <- app_assoc.
    + rewrite (proj2 (Z.eqb_neq _ _) Hnz). unfold ret at 1.
      now rewrite IH.
Qed.

Lemma filter_empty_iff {A : Type} (P : A -> Prop)
  `{forall x, Decision (P x)} (l : list A) :
  filter P l = [] <-> forall x, x ∈ l -> ~ P x.
Proof.
  induction l as [|a l IH].
  - split; [intros _ x Hx; now apply elem_of_nil in Hx | reflexivity].
  - rewrite filter_cons. destruct (decide (P a)) as [Ha|Ha].
    + split; [discriminate|]. intros Hall. exfalso.
      apply (Hall a); [apply elem_of_cons; now left | assumption].
    + rewrite IH. split.
      * intros Hall x Hx. apply elem_of_cons in Hx as [->|Hx]; auto.
      * intros Hall x Hx. apply Hall, elem_of_cons. now right.
Qed.

Section DriverProofs.

Variable TOP_EARLGREY_SRAM_CTRL_RET_AON_BASE_ADDR : Z.
Variable SRAM_CTRL_CTRL_REGWEN_REG_OFFSET : Z.
Variable SRAM_CTRL_CTRL_REGWEN_CTRL_REGWEN_BIT : Z.
Variable SRAM_CTRL_CTRL_REG_OFFSET : Z.
Variable SRAM_CTRL_CTRL_RENEW_SCR_KEY_BIT : Z.
Variable SRAM_CTRL_CTRL_INIT_BIT : Z.
Variable TOP_EARLGREY_RAM_RET_AON_BASE_ADDR : Z.
Variable TOP_EARLGREY_RAM_RET_AON_SIZE_BYTES : Z.
Variable sram_ctrl_write : Z -> Z -> list Z -> list Z.

(** [retention_sram_scramble] run on any machine. *)
Lemma scramble_run (m : machine) :
  retention_sram_scramble TOP_EARLGREY_SRAM_CTRL_RET_AON_BASE_ADDR
    SRAM_CTRL_CTRL_REGWEN_REG_OFFSET SRAM_CTRL_CTRL_REGWEN_CTRL_REGWEN_BIT
    SRAM_CTRL_CTRL_REG_OFFSET SRAM_CTRL_CTRL_RENEW_SCR_KEY_BIT
    SRAM_CTRL_CTRL_INIT_BIT sram_ctrl_write m =
  let regwen := regwen_addr TOP_EARLGREY_SRAM_CTRL_RET_AON_BASE_ADDR
                  SRAM_CTRL_CTRL_REGWEN_REG_OFFSET in
  let ctrl := ctrl_addr TOP_EARLGREY_SRAM_CTRL_RET_AON_BASE_ADDR
                SRAM_CTRL_CTRL_REG_OFFSET in
  let word := bitfield_bit32_write
                (bitfield_bit32_write 0 SRAM_CTRL_CTRL_RENEW_SCR_KEY_BIT true)
                SRAM_CTRL_CTRL_INIT_BIT true in
  if bitfield_bit32_read (mmio m regwen) SRAM_CTRL_CTRL_REGWEN_CTRL_REGWEN_BIT
  then (kErrorOk,
        {| mmio := fun a => if a =? ctrl then to_uint32 word else mmio m a;
           ret_ram := sram_ctrl_write ctrl (to_uint32 word) (ret_ram m);
           trace := trace m ++ [MmioRead regwen; MmioWrite ctrl word] |})
  else (kErrorRetSramLocked,
        {| mmio := mmio m; ret_ram := ret_ram m;
           trace := trace m ++ [MmioRead regwen] |}).
Proof.
  cbv zeta. unfold retention_sram_scramble, bind, abs_mmio_read32,
    abs_mmio_write32, ret, regwen_addr, ctrl_addr.
  cbn [mmio ret_ram trace].
  destruct (bitfield_bit32_read _ _); cbn [negb]; [|reflexivity].
  cbn [mmio ret_ram trace]. now rewrite <- app_assoc.
Qed.

(** X1: with the write-enable bit of the control register clear,
    [retention_sram_scramble] returns [kErrorRetSramLocked] after a single
    register read: it writes no register and leaves the retention RAM as
    it is. *)
Theorem retention_sram_scramble_locked (m : machine) :
  0 <= SRAM_CTRL_CTRL_REGWEN_CTRL_REGWEN_BIT ->
  Z.testbit
    (mmio m (regwen_addr TOP_EARLGREY_SRAM_CTRL_RET_AON_BASE_ADDR
               SRAM_CTRL_CTRL_REGWEN_REG_OFFSET))
    SRAM_CTRL_CTRL_REGWEN_CTRL_REGWEN_BIT = false ->
  let (err, m') :=
    retention_sram_scramble TOP_EARLGREY_SRAM_CTRL_RET_AON_BASE_ADDR
      SRAM_CTRL_CTRL_REGWEN_REG_OFFSET SRAM_CTRL_CTRL_REGWEN_CTRL_REGWEN_BIT
      SRAM_CTRL_CTRL_REG_OFFSET SRAM_CTRL_CTRL_RENEW_SCR_KEY_BIT
      SRAM_CTRL_CTRL_INIT_BIT sram_ctrl_write m in
  err = kErrorRetSramLocked /\
  mmio m' = mmio m /\
  ret_ram m' = ret_ram m /\
  trace m' = trace m ++
    [MmioRead (regwen_addr TOP_EARLGREY_SRAM_CTRL_RET_AON_BASE_ADDR
                 SRAM_CTRL_CTRL_REGWEN_REG_OFFSET)].
Proof.
  intros Hbit Hclear. rewrite scramble_run. cbv zeta.
  rewrite bitfield_bit32_read_testbit, Hclear by assumption.
  cbn [mmio ret_ram trace]. auto.
Qed.

(** X2: with the write-enable bit set, [retention_sram_scramble] returns
    [kErrorOk] after one read and one write: the word written to the
    control register has the key-renewal and the initialisation bit set
    and every other bit clear, no other register changes, and the
    retention RAM is what the controller makes of it on that request. *)
Theorem retention_sram_scramble_requests (m : machine) :
  0 <= SRAM_CTRL_CTRL_REGWEN_CTRL_REGWEN_BIT ->
  0 <= SRAM_CTRL_CTRL_RENEW_SCR_KEY_BIT < 32 ->
  0 <= SRAM_CTRL_CTRL_INIT_BIT < 32 ->
  Z.testbit
    (mmio m (regwen_addr TOP_EARLGREY_SRAM_CTRL_RET_AON_BASE_ADDR
               SRAM_CTRL_CTRL_REGWEN_REG_OFFSET))
    SRAM_CTRL_CTRL_REGWEN_CTRL_REGWEN_BIT = true ->
  let regwen := regwen_addr TOP_EARLGREY_SRAM_CTRL_RET_AON_BASE_ADDR
                  SRAM_CTRL_CTRL_REGWEN_REG_OFFSET in
  let ctrl := ctrl_addr TOP_EARLGREY_SRAM_CTRL_RET_AON_BASE_ADDR
                SRAM_CTRL_CTRL_REG_OFFSET in
  let word := scramble_request SRAM_CTRL_CTRL_RENEW_SCR_KEY_BIT
                SRAM_CTRL_CTRL_INIT_BIT in
  let (err, m') :=
    retention_sram_scramble TOP_EARLGREY_SRAM_CTRL_RET_AON_BASE_ADDR
      SRAM_CTRL_CTRL_REGWEN_REG_OFFSET SRAM_CTRL_CTRL_REGWEN_CTRL_REGWEN_BIT
      SRAM_CTRL_CTRL_REG_OFFSET SRAM_CTRL_CTRL_RENEW_SCR_KEY_BIT
      SRAM_CTRL_CTRL_INIT_BIT sram_ctrl_write m in
  err = kErrorOk /\
  trace m' = trace m ++ [MmioRead regwen; MmioWrite ctrl word] /\
  (forall n, 0 <= n ->
     Z.testbit word n =
     (n =? SRAM_CTRL_CTRL_RENEW_SCR_KEY_BIT) || (n =? SRAM_CTRL_CTRL_INIT_BIT)) /\
  mmio m' ctrl = word /\
  (forall a, a <> ctrl -> mmio m' a = mmio m a) /\
  ret_ram m' = sram_ctrl_write ctrl word (ret_ram m).
Proof.
  intros Hbit Hr Hi Hset. cbv zeta.
  rewrite scramble_run. cbv zeta.
  rewrite bitfield_bit32_read_testbit, Hset by assumption.
  rewrite scramble_word by assumption.
  fold (scramble_request SRAM_CTRL_CTRL_RENEW_SCR_KEY_BIT
          SRAM_CTRL_CTRL_INIT_BIT).
  rewrite scramble_request_range by assumption.
  cbn [mmio ret_ram trace].
  split; [reflexivity|]. split; [reflexivity|]. split.
  - intros n Hn. unfold scramble_request.
    rewrite Z.lor_spec, !Z.pow2_bits_eqb by lia.
    now rewrite (Z.eqb_sym n), (Z.eqb_sym n).
  - split; [now rewrite Z.eqb_refl|]. split; [|reflexivity].
    intros a Ha. now rewrite (proj2 (Z.eqb_neq _ _) Ha).
Qed.

(** [retention_sram_test] run on a machine whose retention RAM has its
    [ret_ram_len] words, in terms of the run of the driver. *)
Lemma test_run (m : machine) :
  length (ret_ram m) = ret_ram_len TOP_EARLGREY_RAM_RET_AON_SIZE_BYTES ->
  retention_sram_test TOP_EARLGREY_SRAM_CTRL_RET_AON_BASE_ADDR
    SRAM_CTRL_CTRL_REGWEN_REG_OFFSET SRAM_CTRL_CTRL_REGWEN_CTRL_REGWEN_BIT
    SRAM_CTRL_CTRL_REG_OFFSET SRAM_CTRL_CTRL_RENEW_SCR_KEY_BIT
    SRAM_CTRL_CTRL_INIT_BIT TOP_EARLGREY_RAM_RET_AON_BASE_ADDR
    TOP_EARLGREY_RAM_RET_AON_SIZE_BYTES sram_ctrl_write m =
  let (err, m2) :=
    retention_sram_scramble TOP_EARLGREY_SRAM_CTRL_RET_AON_BASE_ADDR
      SRAM_CTRL_CTRL_REGWEN_REG_OFFSET SRAM_CTRL_CTRL_REGWEN_CTRL_REGWEN_BIT
      SRAM_CTRL_CTRL_REG_OFFSET SRAM_CTRL_CTRL_RENEW_SCR_KEY_BIT
      SRAM_CTRL_CTRL_INIT_BIT sram_ctrl_write
      {| mmio := mmio m;
         ret_ram := repeat 0 (ret_ram_len TOP_EARLGREY_RAM_RET_AON_SIZE_BYTES);
         trace := trace m ++
           [LogInfo "Initializing retention SRAM." [];
            LogInfo "Scrambling retention SRAM." []] |} in
  if negb (rom_error_eqb err kErrorOk) then
    (kErrorUnknown,
     {| mmio := mmio m2; ret_ram := ret_ram m2;
        trace := trace m2 ++ [LogError "Scrambling failed." []] |})
  else
    let zs := zero_words TOP_EARLGREY_RAM_RET_AON_SIZE_BYTES (ret_ram m2) in
    let matches := to_uint32 (Z.of_nat (length zs)) in
    (if negb (matches =? 0) then kErrorUnknown else kErrorOk,
     {| mmio := mmio m2; ret_ram := ret_ram m2;
        trace := trace m2 ++
          [LogInfo
             "Checking retention SRAM is scrambled (will stall for a short time)."
             []] ++
          map (fun i =>
                 LogError "Retention SRAM potentially unscrambled at %p."
                   [ret_ram_addr TOP_EARLGREY_RAM_RET_AON_BASE_ADDR i]) zs ++
          [LogInfo "Finishing retention SRAM scrambling test (matches=%u)."
             [matches]] |}).
Proof.
  intros Hlen. unfold retention_sram_test.
  unfold bind at 1. unfold LOG_INFO at 1. unfold emit at 1.
  unfold bind at 1. rewrite zero_loop_run. cbn [mmio ret_ram trace].
  rewrite <- Hlen, zero_fill_all.
  unfold bind at 1. unfold LOG_INFO at 1. unfold emit at 1.
  cbn [mmio ret_ram trace]. rewrite <- app_assoc. cbn [app].
  unfold bind at 1.
  destruct (retention_sram_scramble _ _ _ _ _ _ _ _) as [err m2].
  destruct (rom_error_eqb err kErrorOk); cbn [negb].
  - unfold bind at 1. unfold LOG_INFO at 1. unfold emit at 1.
    unfold bind at 1.
    change 0 with (to_uint32 0) at 1.
    rewrite check_loop_run. cbn [mmio ret_ram trace Z.add].
    unfold bind, LOG_INFO, emit, ret. cbn [mmio ret_ram trace].
    unfold zero_words. rewrite Hlen.
    f_equal. f_equal. now rewrite <- !app_assoc.
  - unfold bind, LOG_ERROR, emit, ret. reflexivity.
Qed.

(** The words of the retention RAM are fewer than [2 ^ 32], so that the
    count of matches does not wrap. *)
Lemma zero_words_count (ram : list Z) :
  0 <= TOP_EARLGREY_RAM_RET_AON_SIZE_BYTES < UINT32_MOD ->
  to_uint32
    (Z.of_nat (length (zero_words TOP_EARLGREY_RAM_RET_AON_SIZE_BYTES ram)))
  = Z.of_nat (length (zero_words TOP_EARLGREY_RAM_RET_AON_SIZE_BYTES ram)).
Proof.
  intros Hsize. apply CodecProofs.to_uint32_small.
  pose proof (length_filter (fun i => array_get ram i = 0)
                (seq 0 (ret_ram_len TOP_EARLGREY_RAM_RET_AON_SIZE_BYTES)))
    as Hle.
  rewrite length_seq in Hle. unfold zero_words.
  assert (Z.of_nat (ret_ram_len TOP_EARLGREY_RAM_RET_AON_SIZE_BYTES)
          <= TOP_EARLGREY_RAM_RET_AON_SIZE_BYTES).
  { unfold ret_ram_len. rewrite Z2Nat.id by (apply Z.div_pos; lia).
    apply Z.div_le_upper_bound; lia. }
  lia.
Qed.

(** X3: when the control register is locked, [retention_sram_test] returns
    [kErrorUnknown] after it has set every word of the retention RAM to
    zero: it reads the write-enable register once, writes no register and
    logs that the scrambling failed. *)
Theorem retention_sram_test_locked (m : machine) :
  0 <= SRAM_CTRL_CTRL_REGWEN_CTRL_REGWEN_BIT ->
  length (ret_ram m) = ret_ram_len TOP_EARLGREY_RAM_RET_AON_SIZE_BYTES ->
  Z.testbit
    (mmio m (regwen_addr TOP_EARLGREY_SRAM_CTRL_RET_AON_BASE_ADDR
               SRAM_CTRL_CTRL_REGWEN_REG_OFFSET))
    SRAM_CTRL_CTRL_REGWEN_CTRL_REGWEN_BIT = false ->
  let (err, m') :=
    retention_sram_test TOP_EARLGREY_SRAM_CTRL_RET_AON_BASE_ADDR
      SRAM_CTRL_CTRL_REGWEN_REG_OFFSET SRAM_CTRL_CTRL_REGWEN_CTRL_REGWEN_BIT
      SRAM_CTRL_CTRL_REG_OFFSET SRAM_CTRL_CTRL_RENEW_SCR_KEY_BIT
      SRAM_CTRL_CTRL_INIT_BIT TOP_EARLGREY_RAM_RET_AON_BASE_ADDR
      TOP_EARLGREY_RAM_RET_AON_SIZE_BYTES sram_ctrl_write m in
  err = kErrorUnknown /\
  ret_ram m' = repeat 0 (ret_ram_len TOP_EARLGREY_RAM_RET_AON_SIZE_BYTES) /\
  mmio m' = mmio m /\
  trace m' = trace m ++
    [LogInfo "Initializing retention SRAM." [];
     LogInfo "Scrambling retention SRAM." [];
     MmioRead (regwen_addr TOP_EARLGREY_SRAM_CTRL_RET_AON_BASE_ADDR
                 SRAM_CTRL_CTRL_REGWEN_REG_OFFSET);
     LogError "Scrambling failed." []].
Proof.
  intros Hbit Hlen Hclear. rewrite test_run by assumption.
  rewrite scramble_run. cbv zeta. cbn [mmio ret_ram trace].
  rewrite bitfield_bit32_read_testbit, Hclear by assumption.
  cbn [rom_error_eqb negb mmio ret_ram trace].
  repeat split. now rewrite <- !app_assoc.
Qed.

(** X4: when the control register is writable, [retention_sram_test] hands
    the controller a retention RAM that is all zero, whatever it held
    before, and returns [kErrorOk] exactly when every word of the RAM that
    the controller leaves is different from zero; otherwise it returns
    [kErrorUnknown]. *)
Theorem retention_sram_test_verdict (m : machine) :
  0 <= SRAM_CTRL_CTRL_REGWEN_CTRL_REGWEN_BIT ->
  0 <= SRAM_CTRL_CTRL_RENEW_SCR_KEY_BIT < 32 ->
  0 <= SRAM_CTRL_CTRL_INIT_BIT < 32 ->
  0 <= TOP_EARLGREY_RAM_RET_AON_SIZE_BYTES < UINT32_MOD ->
  length (ret_ram m) = ret_ram_len TOP_EARLGREY_RAM_RET_AON_SIZE_BYTES ->
  Z.testbit
    (mmio m (regwen_addr TOP_EARLGREY_SRAM_CTRL_RET_AON_BASE_ADDR
               SRAM_CTRL_CTRL_REGWEN_REG_OFFSET))
    SRAM_CTRL_CTRL_REGWEN_CTRL_REGWEN_BIT = true ->
  let scrambled :=
    sram_ctrl_write
      (ctrl_addr TOP_EARLGREY_SRAM_CTRL_RET_AON_BASE_ADDR
         SRAM_CTRL_CTRL_REG_OFFSET)
      (scramble_request SRAM_CTRL_CTRL_RENEW_SCR_KEY_BIT
         SRAM_CTRL_CTRL_INIT_BIT)
      (repeat 0 (ret_ram_len TOP_EARLGREY_RAM_RET_AON_SIZE_BYTES)) in
  let (err, m') :=
    retention_sram_test TOP_EARLGREY_SRAM_CTRL_RET_AON_BASE_ADDR
      SRAM_CTRL_CTRL_REGWEN_REG_OFFSET SRAM_CTRL_CTRL_REGWEN_CTRL_REGWEN_BIT
      SRAM_CTRL_CTRL_REG_OFFSET SRAM_CTRL_CTRL_RENEW_SCR_KEY_BIT
      SRAM_CTRL_CTRL_INIT_BIT TOP_EARLGREY_RAM_RET_AON_BASE_ADDR
      TOP_EARLGREY_RAM_RET_AON_SIZE_BYTES sram_ctrl_write m in
  ret_ram m' = scrambled /\
  (err = kErrorOk <->
   forall i, (i < ret_ram_len TOP_EARLGREY_RAM_RET_AON_SIZE_BYTES)%nat ->
             array_get scrambled i <> 0) /\
  (err = kErrorOk \/ err = kErrorUnknown).
Proof.
  intros Hbit Hr Hi Hsize Hlen Hset. cbv zeta.
  rewrite test_run by assumption.
  rewrite scramble_run. cbv zeta. cbn [mmio ret_ram trace].
  rewrite bitfield_bit32_read_testbit, Hset by assumption.
  rewrite scramble_word by assumption.
  fold (scramble_request SRAM_CTRL_CTRL_RENEW_SCR_KEY_BIT
          SRAM_CTRL_CTRL_INIT_BIT).
  rewrite scramble_request_range by assumption.
  cbn [rom_error_eqb negb mmio ret_ram trace].
  rewrite zero_words_count by assumption.
  set (scrambled := sram_ctrl_write _ _ _).
  split; [reflexivity|].
  assert (Hzs : zero_words TOP_EARLGREY_RAM_RET_AON_SIZE_BYTES scrambled = []
                <-> forall i,
                    (i < ret_ram_len TOP_EARLGREY_RAM_RET_AON_SIZE_BYTES)%nat ->
                    array_get scrambled i <> 0).
  { unfold zero_words. rewrite filter_empty_iff. split.
    - intros H i Hlt. apply H, elem_of_seq. lia.
    - intros H i Hin. apply elem_of_seq in Hin. apply H. lia. }
  rewrite <- Hzs.
  destruct (zero_words TOP_EARLGREY_RAM_RET_AON_SIZE_BYTES scrambled)
    as [|z zs]; cbn.
  - split; [tauto | now left].
  - split; [split; discriminate | now right].
Qed.

(** X5: when the control register is writable, the trace of
    [retention_sram_test] is two lines, the read of the write-enable
    register, the one write of the request, a line, then one error line
    for each zero word of the scrambled RAM, in order and with the address
    of the word, and a last line that reports how many there were. *)
Theorem retention_sram_test_report (m : machine) :
  0 <= SRAM_CTRL_CTRL_REGWEN_CTRL_REGWEN_BIT ->
  0 <= SRAM_CTRL_CTRL_RENEW_SCR_KEY_BIT < 32 ->
  0 <= SRAM_CTRL_CTRL_INIT_BIT < 32 ->
  0 <= TOP_EARLGREY_RAM_RET_AON_SIZE_BYTES < UINT32_MOD ->
  length (ret_ram m) = ret_ram_len TOP_EARLGREY_RAM_RET_AON_SIZE_BYTES ->
  Z.testbit
    (mmio m (regwen_addr TOP_EARLGREY_SRAM_CTRL_RET_AON_BASE_ADDR
               SRAM_CTRL_CTRL_REGWEN_REG_OFFSET))
    SRAM_CTRL_CTRL_REGWEN_CTRL_REGWEN_BIT = true ->
  let ctrl := ctrl_addr TOP_EARLGREY_SRAM_CTRL_RET_AON_BASE_ADDR
                SRAM_CTRL_CTRL_REG_OFFSET in
  let word := scramble_request SRAM_CTRL_CTRL_RENEW_SCR_KEY_BIT
                SRAM_CTRL_CTRL_INIT_BIT in
  let zs :=
    zero_words TOP_EARLGREY_RAM_RET_AON_SIZE_BYTES
      (sram_ctrl_write ctrl word
         (repeat 0 (ret_ram_len TOP_EARLGREY_RAM_RET_AON_SIZE_BYTES))) in
  trace
    (snd
       (retention_sram_test TOP_EARLGREY_SRAM_CTRL_RET_AON_BASE_ADDR
          SRAM_CTRL_CTRL_REGWEN_REG_OFFSET SRAM_CTRL_CTRL_REGWEN_CTRL_REGWEN_BIT
          SRAM_CTRL_CTRL_REG_OFFSET SRAM_CTRL_CTRL_RENEW_SCR_KEY_BIT
          SRAM_CTRL_CTRL_INIT_BIT TOP_EARLGREY_RAM_RET_AON_BASE_ADDR
          TOP_EARLGREY_RAM_RET_AON_SIZE_BYTES sram_ctrl_write m)) =
  trace m ++
  [LogInfo "Initializing retention SRAM." [];
   LogInfo "Scrambling retention SRAM." [];
   MmioRead (regwen_addr TOP_EARLGREY_SRAM_CTRL_RET_AON_BASE_ADDR
               SRAM_CTRL_CTRL_REGWEN_REG_OFFSET);
   MmioWrite ctrl word;
   LogInfo
     "Checking retention SRAM is scrambled (will stall for a short time)."
     []] ++
  map (fun i =>
         LogError "Retention SRAM potentially unscrambled at %p."
           [ret_ram_addr TOP_EARLGREY_RAM_RET_AON_BASE_ADDR i]) zs ++
  [LogInfo "Finishing retention SRAM scrambling test (matches=%u)."
     [Z.of_nat (length zs)]].
Proof.
  intros Hbit Hr Hi Hsize Hlen Hset. cbv zeta.
  rewrite test_run by assumption.
  rewrite scramble_run. cbv zeta. cbn [mmio ret_ram trace].
  rewrite bitfield_bit32_read_testbit, Hset by assumption.
  rewrite scramble_word by assumption.
  fold (scramble_request SRAM_CTRL_CTRL_RENEW_SCR_KEY_BIT
          SRAM_CTRL_CTRL_INIT_BIT).
  rewrite scramble_request_range by assumption.
  cbn [rom_error_eqb negb mmio ret_ram trace snd].
  rewrite zero_words_count by assumption.
  now rewrite <- !app_assoc.
Qed.

End DriverProofs.

Lemma retention_sram_scramble_locked_witness :
  let (err, m') := example_scramble (example_machine 0) in
  err = kErrorRetSramLocked /\
  mmio m' = mmio (example_machine 0) /\
  ret_ram m' = [7; 7; 7; 7] /\
  trace m' = [MmioRead 0x40500010].
Proof.
  apply (retention_sram_scramble_locked 0x40500000 0x10 0 0x14 0 1
           example_sram_ctrl_write (example_machine 0));
    [lia | reflexivity].
Defined.

Lemma retention_sram_scramble_requests_witness :
  let (err, m') := example_scramble (example_machine 1) in
  err = kErrorOk /\
  trace m' = [MmioRead 0x40500010; MmioWrite 0x40500014 3] /\
  (forall n, 0 <= n -> Z.testbit 3 n = (n =? 0) || (n =? 1)) /\
  mmio m' 0x40500014 = 3 /\
  (forall a, a <> 0x40500014 -> mmio m' a = mmio (example_machine 1) a) /\
  ret_ram m' =
    [0x1122334455667788; 0x99aabbccddeeff00; 0; 0x0123456789abcdef].
Proof.
  apply (retention_sram_scramble_requests 0x40500000 0x10 0 0x14 0 1
           example_sram_ctrl_write (example_machine 1));
    [lia | lia | lia | reflexivity].
Defined.

Lemma retention_sram_test_locked_witness :
  let (err, m') := example_test (example_machine 0) in
  err = kErrorUnknown /\
  ret_ram m' = [0; 0; 0; 0] /\
  mmio m' = mmio (example_machine 0) /\
  trace m' =
    [LogInfo "Initializing retention SRAM." [];
     LogInfo "Scrambling retention SRAM." [];
     MmioRead 0x40500010;
     LogError "Scrambling failed." []].
Proof.
  apply (retention_sram_test_locked 0x40500000 0x10 0 0x14 0 1 0x40600000 32
           example_sram_ctrl_write (example_machine 0));
    [lia | reflexivity | reflexivity].
Defined.

Lemma retention_sram_test_verdict_witness :
  let scrambled :=
    [0x1122334455667788; 0x99aabbccddeeff00; 0; 0x0123456789abcdef] in
  let (err, m') := example_test (example_machine 1) in
  ret_ram m' = scrambled /\
  (err = kErrorOk <->
   forall i, (i < 4)%nat -> array_get scrambled i <> 0) /\
  (err = kErrorOk \/ err = kErrorUnknown).
Proof.
  apply (retention_sram_test_verdict 0x40500000 0x10 0 0x14 0 1 0x40600000 32
           example_sram_ctrl_write (example_machine 1));
    [lia | lia | lia | unfold UINT32_MOD; lia | reflexivity | reflexivity].
Defined.

Lemma retention_sram_test_report_witness :
  trace (snd (example_test (example_machine 1))) =
  [LogInfo "Initializing retention SRAM." [];
   LogInfo "Scrambling retention SRAM." [];
   MmioRead 0x40500010;
   MmioWrite 0x40500014 3;
   LogInfo
     "Checking retention SRAM is scrambled (will stall for a short time)."
     [];
   LogError "Retention SRAM potentially unscrambled at %p." [0x40600010];
   LogInfo "Finishing retention SRAM scrambling test (matches=%u)." [1]].
Proof.
  apply (retention_sram_test_report 0x40500000 0x10 0 0x14 0 1 0x40600000 32
           example_sram_ctrl_write (example_machine 1));
    [lia | lia | lia | unfold UINT32_MOD; lia | reflexivity | reflexivity].
Defined.

End RetentionSramProofs.

(** ** Further properties of [epmp_unlock_test_status] *)

Module UnlockProofs.

Import SiliconCreator.

Section Unlock.

Variable kDeviceTestStatusAddress : Z.
Variable kEpmpModeNa4 : Z.
Variable kEpmpPermLockedReadWrite : Z.
Variable epmp_state_configure_na4 :
  epmp_state_t -> nat -> epmp_region_t -> Z -> epmp_state_t.

(** The shadow state and the register file that a call with a word-aligned
    window leaves behind. *)
Lemma unlock_run (state : state_ptr) (m : machine) :
  epmp_unlock_test_status kDeviceTestStatusAddress kEpmpModeNa4
    kEpmpPermLockedReadWrite epmp_state_configure_na4 state m =
  if kDeviceTestStatusAddress mod sizeof_uint32 =? 0 then
    let m2 :=
      {| csrs :=
           csr_update CSR_REG_PMPCFG1
             (Z.lor (csrs m CSR_REG_PMPCFG1)
                (to_uint32
                   (test_status_cfg_bits kEpmpModeNa4
                      kEpmpPermLockedReadWrite)))
             (csr_update CSR_REG_PMPADDR6
                (to_uint32 (kDeviceTestStatusAddress / sizeof_uint32))
                (csrs m));
         shadow :=
           match state with
           | SHADOW =>
               epmp_state_configure_na4 (shadow m) kEntry
                 (test_status_region kDeviceTestStatusAddress)
                 kEpmpPermLockedReadWrite
           | NULL => shadow m
           end;
         csr_log := csr_log m ++
           [CsrWrite CSR_REG_PMPADDR6
              (kDeviceTestStatusAddress / sizeof_uint32);
            CsrSetBits CSR_REG_PMPCFG1
              (test_status_cfg_bits kEpmpModeNa4
                 kEpmpPermLockedReadWrite)] |} in
    match state with
    | NULL => (true, m2)
    | SHADOW =>
        (forallb (csr_matches m2) checked_regs,
         {| csrs := csrs m2; shadow := shadow m2;
            csr_log := csr_log m2 ++ map CsrRead checked_regs |})
    end
  else (false, m).
Proof.
  unfold epmp_unlock_test_status.
  destruct (kDeviceTestStatusAddress mod sizeof_uint32 =? 0);
    cbn [negb]; [|reflexivity].
  cbv zeta.
  pose proof (CheckProofs.unlock_writes kDeviceTestStatusAddress
                kEpmpModeNa4 kEpmpPermLockedReadWrite) as Hw.
  destruct state.
  - specialize (Hw m (shadow m)).
    unfold bind at 1. unfold ret at 1.
    unfold bind in Hw |- *. destruct m as [c s l].
    cbn [csrs shadow csr_log] in Hw |- *.
    destruct (CSR_WRITE CSR_REG_PMPADDR6 _ _) as [[] m1].
    destruct (CSR_SET_BITS CSR_REG_PMPCFG1 _ m1) as [[] m2].
    injection Hw as ->. reflexivity.
  - specialize (Hw m (epmp_state_configure_na4 (shadow m) kEntry
                        (test_status_region kDeviceTestStatusAddress)
                        (kPerm kEpmpPermLockedReadWrite))).
    unfold bind at 1. unfold bind at 1. unfold load_state, store_state.
    unfold bind in Hw |- *.
    destruct (CSR_WRITE CSR_REG_PMPADDR6 _ _) as [[] m1].
    destruct (CSR_SET_BITS CSR_REG_PMPCFG1 _ m1) as [[] m2].
    injection Hw as ->.
    rewrite CheckProofs.epmp_state_check_run.
    cbn [csrs shadow csr_log].
    now destruct (forallb _ checked_regs).
Qed.

(** The register file after a call, register by register. *)
Lemma unlock_csrs (state : state_ptr) (m : machine) (reg : csr_reg) :
  csrs (snd (epmp_unlock_test_status kDeviceTestStatusAddress kEpmpModeNa4
               kEpmpPermLockedReadWrite epmp_state_configure_na4 state m)) reg
  = if kDeviceTestStatusAddress mod sizeof_uint32 =? 0 then
      csr_update CSR_REG_PMPCFG1
        (Z.lor (csrs m CSR_REG_PMPCFG1)
           (to_uint32
              (test_status_cfg_bits kEpmpModeNa4 kEpmpPermLockedReadWrite)))
        (csr_update CSR_REG_PMPADDR6
           (to_uint32 (kDeviceTestStatusAddress / sizeof_uint32)) (csrs m))
        reg
    else csrs m reg.
Proof.
  rewrite unlock_run.
  destruct (kDeviceTestStatusAddress mod sizeof_uint32 =? 0);
    [destruct state|]; reflexivity.
Qed.

(** X6: what [epmp_unlock_test_status] leaves in the registers depends on
    the registers alone, not on whether a shadow state is passed, and a
    second call changes nothing: the register file after two calls is the
    register file after one. *)
Theorem epmp_unlock_test_status_registers_idempotent
  (state1 state2 : state_ptr) (m : machine) (reg : csr_reg) :
  let unlock :=
    epmp_unlock_test_status kDeviceTestStatusAddress kEpmpModeNa4
      kEpmpPermLockedReadWrite epmp_state_configure_na4 in
  csrs (snd (unlock state1 m)) reg = csrs (snd (unlock state2 m)) reg /\
  csrs (snd (unlock state2 (snd (unlock state1 m)))) reg
    = csrs (snd (unlock state1 m)) reg.
Proof.
  cbv zeta. rewrite !unlock_csrs.
  destruct (kDeviceTestStatusAddress mod sizeof_uint32 =? 0) eqn:Hal;
    [|split; reflexivity].
  split; [reflexivity|].
  unfold csr_update.
  destruct (decide (reg = CSR_REG_PMPCFG1)) as [->|Hcfg].
  - destruct (decide (CSR_REG_PMPCFG1 = CSR_REG_PMPCFG1)); [|contradiction].
    now rewrite <- Z.lor_assoc, Z.lor_diag.
  - destruct (decide (reg = CSR_REG_PMPADDR6)); [reflexivity|].
    rewrite unlock_csrs, Hal. unfold csr_update.
    destruct (decide (reg = CSR_REG_PMPCFG1)); [contradiction|].
    destruct (decide (reg = CSR_REG_PMPADDR6)); [contradiction|reflexivity].
Qed.

(** X7: a call with a word-aligned window only sets bits of [pmpcfg1],
    and only in the byte of entry 6: for configuration byte values of mode
    and permission, each bit of [pmpcfg1] afterwards is the bit before,
    or-ed, for bits 16 to 23, with the bit of [mode | permission]; the
    bytes of entries 4, 5 and 7 are as before and no bit is cleared. *)
Theorem epmp_unlock_test_status_pmpcfg1_bits (state : state_ptr)
  (m : machine) (n : Z) :
  0 <= kEpmpModeNa4 < 256 -> 0 <= kEpmpPermLockedReadWrite < 256 ->
  kDeviceTestStatusAddress mod sizeof_uint32 = 0 ->
  0 <= n ->
  Z.testbit
    (csrs (snd (epmp_unlock_test_status kDeviceTestStatusAddress kEpmpModeNa4
                  kEpmpPermLockedReadWrite epmp_state_configure_na4 state m))
       CSR_REG_PMPCFG1) n
  = Z.testbit (csrs m CSR_REG_PMPCFG1) n
    || ((16 <=? n) && (n <? 24)
        && Z.testbit (Z.lor kEpmpModeNa4 kEpmpPermLockedReadWrite) (n - 16)).
Proof.
  intros Hm Hp Hal Hn. rewrite unlock_csrs, Hal. cbn [Z.eqb].
  unfold csr_update.
  destruct (decide (CSR_REG_PMPCFG1 = CSR_REG_PMPCFG1)); [|contradiction].
  rewrite Z.lor_spec. f_equal.
  unfold to_uint32, UINT32_MOD, test_status_cfg_bits, kPerm.
  change (Z.of_nat kEntry mod sizeof_uint32 * 8) with 16.
  rewrite Z.testbit_mod_pow2, Z.shiftl_spec by lia.
  assert (Hhigh : forall k, 8 <= k ->
            Z.testbit (Z.lor kEpmpModeNa4 kEpmpPermLockedReadWrite) k = false).
  { intros k Hk. rewrite Z.lor_spec.
    rewrite <- (Z.mod_small kEpmpModeNa4 (2 ^ 8)) by lia.
    rewrite <- (Z.mod_small kEpmpPermLockedReadWrite (2 ^ 8)) by lia.
    now rewrite !Z.mod_pow2_bits_high by lia. }
  destruct (Z.leb_spec 16 n) as [H16|H16]; cbn [andb].
  - destruct (Z.ltb_spec n 24) as [H24|H24]; cbn [andb].
    + now rewrite (proj2 (Z.ltb_lt n 32)) by lia.
    + rewrite Hhigh by lia. apply andb_false_r.
  - rewrite Z.testbit_neg_r by lia. apply andb_false_r.
Qed.

(** X8: when [epmp_unlock_test_status], called with a shadow state,
    returns [true], the window is word aligned and a run of
    [epmp_state_check] right after it succeeds: success leaves the
    registers and the shadow state in agreement. *)
Theorem epmp_unlock_test_status_then_check (m : machine) :
  fst (epmp_unlock_test_status kDeviceTestStatusAddress kEpmpModeNa4
         kEpmpPermLockedReadWrite epmp_state_configure_na4 SHADOW m) = true ->
  kDeviceTestStatusAddress mod sizeof_uint32 = 0 /\
  fst (epmp_state_check
         (snd (epmp_unlock_test_status kDeviceTestStatusAddress kEpmpModeNa4
                 kEpmpPermLockedReadWrite epmp_state_configure_na4 SHADOW m)))
  = true.
Proof.
  rewrite unlock_run.
  destruct (kDeviceTestStatusAddress mod sizeof_uint32 =? 0) eqn:Hal;
    [|discriminate].
  cbv zeta. cbn [fst snd]. intros Hok.
  split; [now apply Z.eqb_eq|].
  rewrite CheckProofs.epmp_state_check_run. cbn [fst]. exact Hok.
Qed.

(** X9: when [epmp_unlock_test_status], called with a shadow state,
    returns [true], the shadow state it leaves is the output of
    [epmp_state_configure_na4] for entry 6, and this output records the
    window: its [pmpaddr[6]] is the address of the window divided by four
    and its [pmpcfg[1]] has every bit of [(mode | permission) << 16]
    set. *)
Theorem epmp_unlock_test_status_validates_shadow (m : machine) :
  fst (epmp_unlock_test_status kDeviceTestStatusAddress kEpmpModeNa4
         kEpmpPermLockedReadWrite epmp_state_configure_na4 SHADOW m) = true ->
  let s' :=
    shadow (snd (epmp_unlock_test_status kDeviceTestStatusAddress
                   kEpmpModeNa4 kEpmpPermLockedReadWrite
                   epmp_state_configure_na4 SHADOW m)) in
  let bits :=
    to_uint32 (Z.shiftl (Z.lor kEpmpModeNa4 kEpmpPermLockedReadWrite) 16) in
  s' = epmp_state_configure_na4 (shadow m) 6%nat
         {| start := kDeviceTestStatusAddress;
            end_ := to_uint32 (kDeviceTestStatusAddress + 4) |}
         kEpmpPermLockedReadWrite /\
  array_get (pmpaddr s') 6 = to_uint32 (kDeviceTestStatusAddress / 4) /\
  Z.land (array_get (pmpcfg s') 1) bits = bits.
Proof.
  rewrite unlock_run.
  destruct (kDeviceTestStatusAddress mod sizeof_uint32 =? 0) eqn:Hal;
    [|discriminate].
  cbv zeta. cbn [fst snd shadow]. intros Hok.
  split; [reflexivity|].
  rewrite forallb_forall in Hok.
  pose proof (Hok CSR_REG_PMPADDR6
                (CheckProofs.checked_regs_complete CSR_REG_PMPADDR6)) as Ha.
  pose proof (Hok CSR_REG_PMPCFG1
                (CheckProofs.checked_regs_complete CSR_REG_PMPCFG1)) as Hc.
  unfold csr_matches in Ha, Hc. apply Z.eqb_eq in Ha, Hc.
  cbn [csrs shadow expected_csr] in Ha, Hc.
  split.
  - rewrite <- Ha. reflexivity.
  - rewrite <- Hc. unfold csr_update.
    destruct (decide (CSR_REG_PMPCFG1 = CSR_REG_PMPCFG1)); [|contradiction].
    change (test_status_cfg_bits kEpmpModeNa4 kEpmpPermLockedReadWrite)
      with (Z.shiftl (Z.lor kEpmpModeNa4 kEpmpPermLockedReadWrite) 16).
    apply Z.bits_inj'. intros k Hk.
    rewrite Z.land_spec, Z.lor_spec.
    destruct (Z.testbit (csrs m CSR_REG_PMPCFG1) k),
      (Z.testbit
         (to_uint32
            (Z.shiftl (Z.lor kEpmpModeNa4 kEpmpPermLockedReadWrite) 16)) k);
      reflexivity.
Qed.

End Unlock.

Import UnlockExample.

Lemma epmp_unlock_test_status_pmpcfg1_bits_witness :
  Z.testbit
    (csrs (snd (example_unlock SHADOW (flip_bit CSR_REG_PMPCFG1 9
                                         machine_zero)))
       CSR_REG_PMPCFG1) 20
  = Z.testbit (csrs (flip_bit CSR_REG_PMPCFG1 9 machine_zero)
                 CSR_REG_PMPCFG1) 20
    || ((16 <=? 20) && (20 <? 24) && Z.testbit (Z.lor 0x10 0x83) (20 - 16)).
Proof.
  apply (epmp_unlock_test_status_pmpcfg1_bits 0x30000000 0x10 0x83
           example_configure_na4 SHADOW
           (flip_bit CSR_REG_PMPCFG1 9 machine_zero) 20);
    [lia | lia | reflexivity | lia].
Defined.

Lemma epmp_unlock_test_status_then_check_witness :
  0x30000000 mod sizeof_uint32 = 0 /\
  fst (epmp_state_check (snd (example_unlock SHADOW machine_zero))) = true.
Proof.
  apply (epmp_unlock_test_status_then_check 0x30000000 0x10 0x83
           example_configure_na4 machine_zero).
  reflexivity.
Defined.

Lemma epmp_unlock_test_status_validates_shadow_witness :
  let s' := shadow (snd (example_unlock SHADOW machine_zero)) in
  s' = example_configure_na4 (shadow machine_zero) 6%nat
         {| start := 0x30000000; end_ := to_uint32 (0x30000000 + 4) |} 0x83 /\
  array_get (pmpaddr s') 6 = to_uint32 (0x30000000 / 4) /\
  Z.land (array_get (pmpcfg s') 1) (to_uint32 (Z.shiftl (Z.lor 0x10 0x83) 16))
  = to_uint32 (Z.shiftl (Z.lor 0x10 0x83) 16).
Proof.
  apply (epmp_unlock_test_status_validates_shadow 0x30000000 0x10 0x83
           example_configure_na4 machine_zero).
  reflexivity.
Defined.

End UnlockProofs.
